(** * english-learning-tools: the terminal formatter of [main.py]

    A shallow embedding of the rendering core of [main.py]: the display-width
    calculator [adjust_length_ja_en], the colour allocator
    [generate_color_tag], the line composer [format_token_tag_pairs], the
    batch formatter [format] and the two [translate] methods; then of the
    analyzer [MorphologicalAnalyzer.analyze] with its tag table and of the
    loop [InteractiveMode.run].

    Python values are modelled as follows.
    - A [str] is the list of its Unicode code points ([list N]); [len] is
      [length].
    - A [dict] keyed by strings is a [gmap (list N)].
    - A [set] is represented by the sequence of elements added to it; the
      order in which Python iterates over it is a parameter [set_iter] of
      which only the two facts every hash set guarantees are assumed.
    - A raised exception is the [Raise] branch of [result].
    - Library functions of [unicodedata], [termcolor], [googletrans],
      [deepl], [langdetect] and [os] are parameters of the sections below;
      concrete instances are given in the modules [UCD], [Termcolor] and
      [Env] and are used for the closed examples only.
    - The functions of [nltk] are parameters as well, with a stand-in in
      the module [Nltk]; the terminal of the loop is the list of what
      [input] will deliver and the list of what has been written. *)

From Stdlib Require Import ZArith Lia.
From Stdlib Require Ascii DecimalString.
From stdpp Require Import gmap list strings sorting.

Open Scope nat_scope.

(** ** Strings *)

Module Py.

(** Code points of an ASCII literal. *)
Definition ustr (s : string) : list N :=
  Ascii.N_of_ascii <$> String.list_ascii_of_string s.

Definition space : N := 32%N.
Definition newline : N := 10%N.

(** [n * " "] and friends: a negative or zero count gives the empty string. *)
Definition repeat_char (c : N) (n : nat) : list N := replicate n c.

(** [s.ljust(width, ' ')]: [s] itself when [width <= len(s)]. *)
Definition ljust (s : list N) (width : nat) : list N :=
  s ++ repeat_char space (width - length s).

(** [abs(a - b)] on Python integers that happen to be lengths. *)
Definition abs_diff (a b : nat) : nat :=
  Z.to_nat (Z.abs (Z.of_nat a - Z.of_nat b)).

(** [sep.join(l)]. *)
Fixpoint join (sep : list N) (l : list (list N)) : list N :=
  match l with
  | [] => []
  | [x] => x
  | x :: rest => x ++ sep ++ join sep rest
  end.

(** [sorted(l, key=len)]: a stable sort, here by insertion from the right;
    an element is placed before the first element that is at least as long,
    so that equal keys keep their relative order. *)
Fixpoint insert_by_len (x : list N) (l : list (list N)) : list (list N) :=
  match l with
  | [] => [x]
  | y :: l' =>
      if decide (length x ≤ length y) then x :: y :: l'
      else y :: insert_by_len x l'
  end.

Fixpoint sorted_by_len (l : list (list N)) : list (list N) :=
  match l with
  | [] => []
  | x :: l' => insert_by_len x (sorted_by_len l')
  end.

(** The order of the keys of [sorted(_, key=len)]. *)
Definition shorter_eq (a b : list N) : Prop := length a ≤ length b.

End Py.

Import Py.

(** Closed decidable statements are settled by evaluation. *)
Ltac by_compute := apply (bool_decide_unpack _); vm_compute; exact I.

(** Two different closed values are told apart by evaluation. *)
Ltac differ := let H := fresh in intros H; vm_compute in H; discriminate H.

(** ** Exceptions and effects *)

Inductive exn : Type :=
| KeyError (key : list N)
| ValueError (msg : string)
| OSError (msg : string)
| ExternalError (msg : string).

Inductive result (A : Type) : Type :=
| Ok (a : A)
| Raise (e : exn).
Arguments Ok {A} a.
Arguments Raise {A} e.

Global Instance result_ret : MRet result := λ A a, Ok a.

Global Instance result_bind : MBind result := λ A B k r,
  match r with
  | Ok a => k a
  | Raise e => Raise e
  end.

(** Code that talks to the outside (terminal, translation services) runs
    in a world that it may change and may raise. *)
Definition io (World A : Type) : Type := World → result A * World.

Global Instance io_ret {World} : MRet (io World) := λ A a w, (Ok a, w).

Global Instance io_bind {World} : MBind (io World) := λ A B k m w,
  match m w with
  | (Ok a, w') => k a w'
  | (Raise e, w') => (Raise e, w')
  end.

Definition io_lift {World A} (r : result A) : io World A := λ w, (r, w).

(** A [for] loop whose body may raise or act on the world. *)
Fixpoint for_each {M : Type → Type} `{!MBind M, !MRet M} {S X}
    (body : S → X → M S) (st : S) (l : list X) : M S :=
  match l with
  | [] => mret st
  | x :: l' => st' ← body st x; for_each body st' l'
  end.

(** ** Characters *)

(** The classes returned by [unicodedata.east_asian_width]. *)
Inductive eaw : Type := EA_F | EA_H | EA_W | EA_Na | EA_A | EA_N.

Global Instance eaw_eq_dec : EqDecision eaw.
Proof. solve_decision. Defined.

Definition is_ascii (c : N) : Prop := (c < 128)%N.

Global Instance is_ascii_dec c : Decision (is_ascii c).
Proof. unfold is_ascii. apply _. Defined.

(** U+001B, the first character of every ANSI escape sequence. *)
Definition ESC : N := 27%N.

(** Does [s] contain a control sequence introducer, ESC followed by "["? *)
Fixpoint contains_ansi_escape (s : list N) : bool :=
  match s with
  | [] => false
  | c :: rest =>
      (bool_decide (c = ESC) && bool_decide (head rest = Some 91%N))
      || contains_ansi_escape rest
  end.

(** U+2594, the glyph under each token, and U+2500, the glyph of the rule. *)
Definition underline_glyph : N := 9620%N.
Definition rule_glyph : N := 9472%N.

(** ** The program *)

(** The configuration fields set by [TextsFormatter.__init__]. *)
Record TextsFormatter : Type := {
  is_list : bool;
  is_translate : bool;
  language_code : option (list N);
  color_enabled : bool;
  colors_to_remove : list (list N);
}.

(** [TextsFormatterDeepL] adds the API key to the inherited fields. *)
Record TextsFormatterDeepL : Type := {
  base : TextsFormatter;
  api_key : list N;
}.

Record TaggedTokens : Type := {
  text : list N;
  token_tag_pairs : list (list N * list N);
}.

(** The variables live across the iterations of the loop of line 124. *)
Record loop_state : Type := {
  st_tag_list : list (list N);
  st_tokens : list N;
  st_under_line : list N;
  st_part_of_speech_line : list N;
  st_color : list N;
}.

Definition loop_init : loop_state :=
  {| st_tag_list := []; st_tokens := []; st_under_line := [];
     st_part_of_speech_line := []; st_color := [] |}.

(** [color_tag[tag]]. *)
Definition dict_getitem (d : gmap (list N) (list N)) (key : list N) : result (list N) :=
  match d !! key with
  | Some v => Ok v
  | None => Raise (KeyError key)
  end.

Section Model.

(** *** 4.1 Width calculator *)

(** [unicodedata.normalize("NFKC", _)] and [unicodedata.east_asian_width]. *)
Variable normalize_NFKC : list N → list N.
Variable east_asian_width : N → eaw.

(** [TextsFormatter.adjust_length_ja_en] (main.py, lines 177-188). *)
Definition adjust_length_ja_en (ja_string : list N) : nat :=
  let ja_characters := normalize_NFKC ja_string in
  foldl (λ adjusted_length character,
           if decide (east_asian_width character = EA_W)
           then adjusted_length + 2
           else adjusted_length + 1)
        0 ja_characters.

(** The width calculator as the specification words it: a sum over the
    characters of the normalised string. *)
Definition char_width (c : N) : nat :=
  if decide (east_asian_width c = EA_W) then 2 else 1.

Definition display_width_spec (s : list N) : nat :=
  sum_list (char_width <$> normalize_NFKC s).

(** *** 4.2 Colour allocator *)

(** [termcolor.COLORS]: colour names with their SGR codes, in the order of
    the dictionary. *)
Variable COLORS : list (list N * N).

(** The list comprehension of line 194. *)
Definition available_colors (colors_to_remove : list (list N)) : list (list N) :=
  filter (λ color, color ∉ colors_to_remove) COLORS.*1.

(** [TextsFormatter.generate_color_tag] (main.py, lines 190-196). The dict
    comprehension inserts the pairs of [zip] from left to right, a later
    pair replacing an earlier one with the same tag. *)
Definition generate_color_tag (tags : list (list N)) (colors_to_remove : list (list N))
  : gmap (list N) (list N) :=
  let colors := available_colors colors_to_remove in
  foldl (λ result '(tag, color), <[tag := color]> result) ∅ (zip tags colors).

(** *** 4.3 Token/tag line composer *)

(** [termcolor.colored(text, color)]; the program applies it to names of
    [COLORS] only. *)
Variable colored : list N → list N → list N.

(** Iteration order of a Python [set]: [set_iter l] lists, in the order of
    iteration, the set obtained by adding the elements of [l] one after the
    other. *)
Variable set_iter : list (list N) → list (list N).

(** One iteration of the loop (main.py, lines 125-145). *)
Definition loop_body (self : TextsFormatter) (color_tag : gmap (list N) (list N))
    (st : loop_state) (pair : list N * list N) : result loop_state :=
  let '(token, tag) := pair in
  let tag_length := adjust_length_ja_en tag in
  '(color, tag) ←
    (if color_enabled self then
       color ← dict_getitem color_tag tag;
       mret (color, colored tag color)
     else mret (st_color st, tag));
  let adjusted_length := length token in
  let '(adjusted_length, tag, tag_list) :=
    if negb (is_list self) then
      let adjusted_length := max adjusted_length tag_length in
      let tag :=
        if decide (tag_length < adjusted_length)
        then tag ++ repeat_char space (abs_diff tag_length adjusted_length)
        else tag in
      (adjusted_length, tag, st_tag_list st)
    else (adjusted_length, tag, st_tag_list st ++ [tag]) in
  let tokens := st_tokens st ++ [space] ++ ljust token adjusted_length in
  let part_of_speech_line := st_part_of_speech_line st ++ [space] ++ tag in
  let token_under_line := repeat_char underline_glyph adjusted_length in
  let token_under_line :=
    if color_enabled self then colored token_under_line color
    else token_under_line in
  let under_line := st_under_line st ++ [space] ++ token_under_line in
  mret {| st_tag_list := tag_list; st_tokens := tokens;
          st_under_line := under_line;
          st_part_of_speech_line := part_of_speech_line;
          st_color := color |}.

(** [TextsFormatter.format_token_tag_pairs] (main.py, lines 113-151). *)
Definition format_token_tag_pairs (self : TextsFormatter)
    (token_tag_pairs : list (list N * list N)) : result (list (list N)) :=
  let tags := set_iter (token_tag_pairs.*2) in
  let color_tag := generate_color_tag tags (colors_to_remove self) in
  st ← for_each (loop_body self color_tag) loop_init token_tag_pairs;
  let part_of_speech_line :=
    if is_list self then
      let tag_list :=
        (λ tag, ustr "- " ++ tag) <$> sorted_by_len (set_iter (st_tag_list st)) in
      join [newline] tag_list
    else st_part_of_speech_line st in
  mret [st_tokens st; st_under_line st; part_of_speech_line].

(** *** The columns as the specification describes them *)

Definition color_of (color_tag : gmap (list N) (list N)) (tag : list N) : list N :=
  default [] (color_tag !! tag).

(** The tag as displayed: wrapped in its colour when colour is enabled. *)
Definition shown_tag (self : TextsFormatter) (color_tag : gmap (list N) (list N))
    (tag : list N) : list N :=
  if color_enabled self then colored tag (color_of color_tag tag) else tag.

Definition column_width (self : TextsFormatter) (token tag : list N) : nat :=
  if is_list self then length token
  else max (length token) (adjust_length_ja_en tag).

Definition token_cell (self : TextsFormatter) (token tag : list N) : list N :=
  ljust token (column_width self token tag).

Definition tag_padding (self : TextsFormatter) (token tag : list N) : list N :=
  if is_list self then []
  else repeat_char space (column_width self token tag - adjust_length_ja_en tag).

Definition tag_cell (self : TextsFormatter) (color_tag : gmap (list N) (list N))
    (token tag : list N) : list N :=
  shown_tag self color_tag tag ++ tag_padding self token tag.

Definition underline_cell (self : TextsFormatter) (color_tag : gmap (list N) (list N))
    (token tag : list N) : list N :=
  let marks := repeat_char underline_glyph (column_width self token tag) in
  if color_enabled self then colored marks (color_of color_tag tag) else marks.

(** A line: every cell preceded by one space. *)
Definition line_of (cell : list N → list N → list N)
    (pairs : list (list N * list N)) : list N :=
  concat ((λ p, space :: cell p.1 p.2) <$> pairs).

(** The bullet list of list mode. *)
Definition bullet_list (entries : list (list N)) : list N :=
  join [newline] ((λ entry, ustr "- " ++ entry) <$> entries).

(** *** 4.4 Batch formatter and translation *)

(** The outside world and the library calls that reach it:
    [os.get_terminal_size().columns], the constructor and the [translate]
    method of [googletrans.Translator] (the latter followed by [.text]),
    the constructor and the [translate_text] method of [deepl.Translator]
    (the latter followed by [str]), and [langdetect.detect]. *)
Variable World : Type.
Variable os_get_terminal_size : io World nat.
Variable google_translator : Type.
Variable googletrans_Translator : io World google_translator.
Variable googletrans_translate :
  google_translator → list N → list N → io World (list N).
Variable deepl_translator : Type.
Variable deepl_Translator : list N → io World deepl_translator.
Variable deepl_translate_text :
  deepl_translator → list N → list N → list N → io World (list N).
Variable langdetect_detect : list N → io World (list N).

(** [TextsFormatter.translate] (main.py, lines 170-175). *)
Definition translate (self : TextsFormatter) (text : list N) : io World (list N) :=
  translator ← googletrans_Translator;
  match language_code self with
  | None => mret text
  | Some language_code =>
      translated_text ← googletrans_translate translator text language_code;
      mret translated_text
  end.

(** [TextsFormatterDeepL.translate] (main.py, lines 214-223). *)
Definition translate_DeepL (self : TextsFormatterDeepL) (text : list N)
  : io World (list N) :=
  translator ← deepl_Translator (api_key self);
  match language_code (base self) with
  | None => mret text
  | Some language_code =>
      source_lang ← langdetect_detect text;
      translated_text ← deepl_translate_text translator text source_lang language_code;
      mret translated_text
  end.

(** One iteration of the loop of [format] (main.py, lines 155-166);
    [self_translate] is the [translate] method of the object. *)
Definition format_body (self_translate : list N → io World (list N))
    (self : TextsFormatter) (formatted_texts : list (list N))
    (text_data : TaggedTokens) : io World (list (list N)) :=
  let token_tag_pairs := token_tag_pairs text_data in
  let text := text text_data in
  formatted_text ← io_lift (format_token_tag_pairs self token_tag_pairs);
  formatted_text ←
    (if is_translate self then
       translated_text ← self_translate text;
       mret (formatted_text ++ [newline :: translated_text])
     else mret formatted_text);
  terminal_width ← os_get_terminal_size;
  let formatted_text :=
    formatted_text
    ++ [[newline] ++ repeat_char rule_glyph terminal_width ++ [newline]] in
  mret (formatted_texts ++ [join [newline] formatted_text]).

(** [TextsFormatter.format] (main.py, lines 153-168), for an object whose
    [translate] method is [self_translate]. *)
Definition format_with (self_translate : list N → io World (list N))
    (self : TextsFormatter) (texts_data : list TaggedTokens) : io World (list N) :=
  formatted_texts ← for_each (format_body self_translate self) [] texts_data;
  mret (join [newline] formatted_texts).

(** [format] on an instance of the base class and on one of the subclass. *)
Definition format (self : TextsFormatter) (texts_data : list TaggedTokens)
  : io World (list N) :=
  format_with (translate self) self texts_data.

Definition format_DeepL (self : TextsFormatterDeepL) (texts_data : list TaggedTokens)
  : io World (list N) :=
  format_with (translate_DeepL self) (base self) texts_data.

End Model.

(** ** Concrete libraries for the closed examples *)

(** A fragment of the Unicode character database. [east_asian_width] is
    the class of EastAsianWidth.txt on U+0020-007E, U+2500-254B,
    U+2592-2595, U+3000, U+3041-3096, U+30A1-30FA, U+3300-33FF,
    U+4E00-9FFF and U+FF01-FF60; [normalize_NFKC] is NFKC on strings over
    U+0000-007F, U+2500-254B, U+2592-2595, U+3000, U+3041-3096,
    U+30A1-30FA, U+33A0, U+4E00-9FFF and U+FF01-FF5E. Code points outside
    these ranges are not covered (classed Neutral, left unchanged); the
    examples stay inside the ranges. *)
Module UCD.

Definition in_range (lo hi c : N) : bool := ((lo <=? c) && (c <=? hi))%N.

Definition east_asian_width (c : N) : eaw :=
  if in_range 0x20 0x7E c then EA_Na
  else if in_range 0x2500 0x254B c || in_range 0x2592 0x2595 c then EA_A
  else if (c =? 0x3000)%N then EA_F
  else if in_range 0x3041 0x3096 c || in_range 0x30A1 0x30FA c
          || in_range 0x3300 0x33FF c || in_range 0x4E00 0x9FFF c then EA_W
  else if in_range 0xFF01 0xFF60 c then EA_F
  else EA_N.

(** Compatibility mappings: the fullwidth forms of ASCII, the ideographic
    space, and U+33A0 SQUARE CM SQUARED, which is "cm2". *)
Definition compatibility_mapping (c : N) : list N :=
  if in_range 0xFF01 0xFF5E c then [(c - 0xFEE0)%N]
  else if (c =? 0x3000)%N then [0x20%N]
  else if (c =? 0x33A0)%N then [0x63%N; 0x6D%N; 0x32%N]
  else [c].

Definition normalize_NFKC (s : list N) : list N :=
  s ≫= compatibility_mapping.

End UCD.

(** [termcolor] 2.x, with colouring active: the palette, and [colored],
    which puts the SGR sequence of the colour before the text and the
    reset sequence after it. *)
Module Termcolor.

Definition COLORS : list (list N * N) :=
  [ (ustr "black", 30%N); (ustr "grey", 30%N); (ustr "red", 31%N);
    (ustr "green", 32%N); (ustr "yellow", 33%N); (ustr "blue", 34%N);
    (ustr "magenta", 35%N); (ustr "cyan", 36%N); (ustr "light_grey", 37%N);
    (ustr "dark_grey", 90%N); (ustr "light_red", 91%N);
    (ustr "light_green", 92%N); (ustr "light_yellow", 93%N);
    (ustr "light_blue", 94%N); (ustr "light_magenta", 95%N);
    (ustr "light_cyan", 96%N); (ustr "white", 97%N) ].

Definition decimal (n : N) : list N :=
  ustr (DecimalString.NilZero.string_of_uint (N.to_uint n)).

Definition RESET : list N := [ESC] ++ ustr "[0m".

Definition colored (text color : list N) : list N :=
  match (list_to_map COLORS : gmap (list N) N) !! color with
  | Some code => [ESC] ++ ustr "[" ++ decimal code ++ ustr "m" ++ text ++ RESET
  | None => text
  end.

End Termcolor.

(** A process in which sets iterate in order of first insertion, the
    terminal is 40 columns wide, no translation service can be reached, and
    the DeepL client refuses an empty key, as [deepl.Translator] does. *)
Module Env.

Definition set_iter (l : list (list N)) : list (list N) :=
  reverse (remove_dups (reverse l)).

Definition World : Type := unit.

Definition os_get_terminal_size : io World nat := mret 40.

Definition google_translator : Type := unit.
Definition googletrans_Translator : io World google_translator := mret tt.
Definition googletrans_translate (translator : google_translator)
    (text dest : list N) : io World (list N) :=
  io_lift (Raise (ExternalError "connection failed")).

Definition deepl_translator : Type := list N.
Definition deepl_Translator (auth_key : list N) : io World deepl_translator :=
  if decide (auth_key = []) then io_lift (Raise (ValueError "auth_key must not be empty"))
  else mret auth_key.
Definition deepl_translate_text (translator : deepl_translator)
    (text source_lang target_lang : list N) : io World (list N) :=
  io_lift (Raise (ExternalError "connection failed")).

Definition langdetect_detect (text : list N) : io World (list N) :=
  mret (ustr "en").

End Env.

(** The program linked with these libraries. *)
Module Demo.

Definition adjust_length_ja_en : list N → nat :=
  adjust_length_ja_en UCD.normalize_NFKC UCD.east_asian_width.

Definition generate_color_tag : list (list N) → list (list N) → gmap (list N) (list N) :=
  generate_color_tag Termcolor.COLORS.

Definition format_token_tag_pairs
  : TextsFormatter → list (list N * list N) → result (list (list N)) :=
  format_token_tag_pairs UCD.normalize_NFKC UCD.east_asian_width
    Termcolor.COLORS Termcolor.colored Env.set_iter.

Definition translate : TextsFormatter → list N → io Env.World (list N) :=
  translate Env.World Env.google_translator Env.googletrans_Translator
    Env.googletrans_translate.

Definition translate_DeepL : TextsFormatterDeepL → list N → io Env.World (list N) :=
  translate_DeepL Env.World Env.deepl_translator Env.deepl_Translator
    Env.deepl_translate_text Env.langdetect_detect.

Definition format : TextsFormatter → list TaggedTokens → io Env.World (list N) :=
  format UCD.normalize_NFKC UCD.east_asian_width Termcolor.COLORS
    Termcolor.colored Env.set_iter Env.World Env.os_get_terminal_size
    Env.google_translator Env.googletrans_Translator Env.googletrans_translate.

Definition format_DeepL : TextsFormatterDeepL → list TaggedTokens → io Env.World (list N) :=
  format_DeepL UCD.normalize_NFKC UCD.east_asian_width Termcolor.COLORS
    Termcolor.colored Env.set_iter Env.World Env.os_get_terminal_size
    Env.deepl_translator Env.deepl_Translator Env.deepl_translate_text
    Env.langdetect_detect.

(** Inline mode and list mode, with and without colour. *)
Definition config (list_mode color : bool) : TextsFormatter :=
  {| is_list := list_mode; is_translate := false; language_code := None;
     color_enabled := color; colors_to_remove := [] |}.

(** The exclusion list of the script at the end of [main.py], and one that
    leaves only "red". *)
Definition dark_colors : list (list N) :=
  [ustr "black"; ustr "grey"; ustr "dark_grey"].

Definition all_but_red : list (list N) :=
  filter (λ color, color ≠ ustr "red") Termcolor.COLORS.*1.

Definition config_without (list_mode color : bool) (remove : list (list N))
  : TextsFormatter :=
  {| is_list := list_mode; is_translate := false; language_code := None;
     color_enabled := color; colors_to_remove := remove |}.

(** U+732B (cat) and U+72AC (dog), both Wide; the gloss U+540D U+8A5E
    (noun) of the tag table; U+33A0 SQUARE CM SQUARED, Wide. *)
Definition neko : list N := [0x732B%N].
Definition inu : list N := [0x72AC%N].
Definition meishi : list N := [0x540D%N; 0x8A5E%N].
Definition square_cm2 : list N := [0x33A0%N].

Definition the_fox : list (list N * list N) :=
  [(ustr "The", ustr "DT"); (ustr "fox", meishi)].

(** A token that holds an SGR escape sequence of its own. *)
Definition escape_token : list N := [ESC] ++ ustr "[31m".

End Demo.

(** ** The analyzer *)

(** A dict display or comprehension: the items are inserted from left to
    right, a later item replacing an earlier one with the same key. *)
Definition dict_of_items {V} (items : list (list N * V)) : gmap (list N) V :=
  foldl (λ d '(key, value), <[key := value]> d) ∅ items.

(** [MorphologicalAnalyzer.tag_table] (main.py, lines 23-62): the tag code,
    then its English expansion and its Japanese gloss, in the order of the
    display. *)
Definition tag_table : list (list N * (list N * list N)) :=
  [
    (ustr "CC", (ustr "Coordinating conjunction",
      [0x8ABF; 0x6574; 0x63A5; 0x7D9A; 0x8A5E]));
    (ustr "CD", (ustr "Cardinal number",
      [0x57FA; 0x6570]));
    (ustr "DT", (ustr "Determiner",
      [0x9650; 0x5B9A; 0x8A5E]));
    (ustr "EX", (ustr "Existential there",
      [0x5B58; 0x5728; 0x3092; 0x8868; 0x3059] ++ ustr " there"));
    (ustr "FW", (ustr "Foreign word",
      [0x5916; 0x56FD; 0x8A9E]));
    (ustr "IN", (ustr "Preposition or subordinating conjunction",
      [0x524D; 0x7F6E; 0x8A5E] ++ ustr "|" ++ [0x5F93; 0x5C5E; 0x63A5; 0x7D9A; 0x8A5E]));
    (ustr "JJ", (ustr "Adjective",
      [0x5F62; 0x5BB9; 0x8A5E]));
    (ustr "JJR", (ustr "Adjective, comparative",
      [0x5F62; 0x5BB9; 0x8A5E] ++ ustr "(" ++ [0x6BD4; 0x8F03; 0x7D1A] ++ ustr ")"));
    (ustr "JJS", (ustr "Adjective, superlative",
      [0x5F62; 0x5BB9; 0x8A5E] ++ ustr "(" ++ [0x6700; 0x4E0A; 0x7D1A] ++ ustr ")"));
    (ustr "LS", (ustr "List item marker",
      ustr "-"));
    (ustr "MD", (ustr "Modal",
      [0x6CD5]));
    (ustr "NN", (ustr "Noun, singular or mass",
      [0x540D; 0x8A5E]));
    (ustr "NNS", (ustr "Noun, plural",
      [0x540D; 0x8A5E] ++ ustr "(" ++ [0x8907; 0x6570; 0x5F62] ++ ustr ")"));
    (ustr "NNP", (ustr "Proper noun, singular",
      [0x56FA; 0x6709; 0x540D; 0x8A5E]));
    (ustr "NNPS", (ustr "Proper noun, plural",
      [0x56FA; 0x6709; 0x540D; 0x8A5E] ++ ustr "(" ++ [0x8907; 0x6570; 0x5F62] ++ ustr ")"));
    (ustr "PDT", (ustr "Predeterminer",
      [0x524D; 0x9650; 0x5B9A; 0x8F9E]));
    (ustr "POS", (ustr "Possessive ending",
      [0x6240; 0x6709; 0x683C; 0x306E; 0x7D42; 0x308F; 0x308A]));
    (ustr "PRP", (ustr "Personal pronoun",
      [0x4EBA; 0x79F0; 0x4EE3; 0x540D; 0x8A5E]));
    (ustr "PRP$", (ustr "Possessive pronoun",
      [0x6240; 0x6709; 0x4EE3; 0x540D; 0x8A5E]));
    (ustr "RB", (ustr "Adverb",
      [0x526F; 0x8A5E]));
    (ustr "RBR", (ustr "Adverb, comparative",
      [0x526F; 0x8A5E] ++ ustr "(" ++ [0x6BD4; 0x8F03; 0x7D1A] ++ ustr ")"));
    (ustr "RBS", (ustr "Adverb, superlative",
      [0x526F; 0x8A5E] ++ ustr "(" ++ [0x6700; 0x4E0A; 0x7D1A] ++ ustr ")"));
    (ustr "RP", (ustr "Particle",
      [0x4E0D; 0x5909; 0x5316; 0x8A5E]));
    (ustr "SYM", (ustr "Symbol",
      [0x8A18; 0x53F7]));
    (ustr "TO", (ustr "to",
      [0x524D; 0x7F6E; 0x8A5E] ++ ustr " to"));
    (ustr "UH", (ustr "Interjection",
      [0x611F; 0x5606; 0x8A5E]));
    (ustr "VB", (ustr "Verb, base form",
      [0x52D5; 0x8A5E] ++ ustr "(" ++ [0x539F; 0x5F62] ++ ustr ")"));
    (ustr "VBD", (ustr "Verb, past tense",
      [0x52D5; 0x8A5E] ++ ustr "(" ++ [0x904E; 0x53BB; 0x5F62] ++ ustr ")"));
    (ustr "VBG", (ustr "Verb, gerund or present participle",
      [0x52D5; 0x8A5E] ++ ustr "(" ++ [0x52D5; 0x540D; 0x8A5E] ++ ustr "|" ++ [0x73FE; 0x5728; 0x5206; 0x8A5E] ++ ustr ")"));
    (ustr "VBN", (ustr "Verb, past participle",
      [0x52D5; 0x8A5E] ++ ustr "(" ++ [0x904E; 0x53BB; 0x5206; 0x8A5E] ++ ustr ")"));
    (ustr "VBP", (ustr "Verb, non-3rd person singular present",
      [0x52D5; 0x8A5E] ++ ustr "(" ++ [0x4E09; 0x4EBA; 0x79F0; 0x5358; 0x6570; 0x4EE5; 0x5916; 0x306E; 0x73FE; 0x5728; 0x5F62] ++ ustr ")"));
    (ustr "VBZ", (ustr "Verb, 3rd person singular present",
      [0x52D5; 0x8A5E] ++ ustr "(" ++ [0x4E09; 0x4EBA; 0x79F0; 0x5358; 0x6570; 0x306E; 0x73FE; 0x5728; 0x5F62] ++ ustr ")"));
    (ustr "WDT", (ustr "Wh-determiner",
      ustr "Wh " ++ [0x9650; 0x5B9A; 0x8A5E]));
    (ustr "WP", (ustr "Wh-pronoun",
      ustr "Wh " ++ [0x4EE3; 0x540D; 0x8A5E]));
    (ustr "WP$", (ustr "Possessive wh-pronoun",
      [0x6240; 0x6709] ++ ustr " Wh " ++ [0x4EE3; 0x540D; 0x8A5E]));
    (ustr "WRB", (ustr "Wh-adverb",
      ustr "Wh " ++ [0x526F; 0x8A5E]));
    (ustr ",", (ustr ",",
      ustr ","));
    (ustr ".", (ustr ".",
      ustr "."))
  ]%N.

(** The three values of [tag_type] that the annotation of [__init__]
    admits. *)
Inductive TagType : Type := abbreviation | expansion | japanese.

Global Instance TagType_eq_dec : EqDecision TagType.
Proof. solve_decision. Defined.

Record MorphologicalAnalyzer : Type := {
  tag_type : TagType;
}.

(** [MorphologicalAnalyzer.__init__] (main.py, lines 64-67). *)
Definition MorphologicalAnalyzer_init (tag_type : option TagType)
  : MorphologicalAnalyzer :=
  {| tag_type := match tag_type with None => abbreviation | Some t => t end |}.

Section AnalyzerModel.

(** [nltk.tokenize.sent_tokenize], [nltk.tokenize.word_tokenize] and
    [nltk.pos_tag]; each raises when its resource has not been downloaded. *)
Variable sent_tokenize : list N → result (list (list N)).
Variable word_tokenize : list N → result (list (list N)).
Variable pos_tag : list (list N) → result (list (list N * list N)).

(** [MorphologicalAnalyzer.tokenize] (main.py, lines 93-95). *)
Definition tokenize (text : list N) : result (list (list N)) :=
  word_tokenize text.

(** The lambda of line 82: [(item[0], self.tag_table[item[1]][index])]. *)
Definition expression (index : nat) (item : list N * list N)
  : result (list N * list N) :=
  match dict_of_items tag_table !! item.2 with
  | Some entry => Ok (item.1, if decide (index = 0) then entry.1 else entry.2)
  | None => Raise (KeyError item.2)
  end.

(** One iteration of the loop of [analyze] (main.py, lines 73-84);
    [results] is the list [result] of the source. *)
Definition analyze_body (self : MorphologicalAnalyzer)
    (results : list TaggedTokens) (text : list N) : result (list TaggedTokens) :=
  tokens ← tokenize text;
  tagged_tokens ← pos_tag tokens;
  if decide (tag_type self = abbreviation) then
    mret (results ++ [{| text := text; token_tag_pairs := tagged_tokens |}])
  else
    let index := if decide (tag_type self = expansion) then 0 else 1 in
    tagged_tokens ← mapM (expression index) tagged_tokens;
    mret (results ++ [{| text := text; token_tag_pairs := tagged_tokens |}]).

(** [MorphologicalAnalyzer.analyze] (main.py, lines 69-86). *)
Definition analyze (self : MorphologicalAnalyzer) (texts : list N)
  : result (list TaggedTokens) :=
  texts ← sent_tokenize texts;
  for_each (analyze_body self) [] texts.

End AnalyzerModel.

(** ** The interactive loop *)

(** What [input] delivers: a line, or [KeyboardInterrupt]; at the end of
    the input it raises [EOFError]. *)
Inductive input_event : Type :=
| Line (command : list N)
| Interrupt.

Global Instance input_event_eq_dec : EqDecision input_event.
Proof. solve_decision. Defined.

(** What the loop does to the terminal: the prompt of [input], [print],
    and [os.system]. *)
Inductive output_event : Type :=
| Prompt (text : list N)
| Print (text : list N)
| System (command : list N).

(** How [run] ends: it returns, or an exception leaves it. *)
Inductive outcome : Type :=
| Returned
| Uncaught (e : exn)
| UncaughtEOF.

(** The [running] flag of the object, what has been written so far, and
    the world of the formatter. *)
Record console (World : Type) : Type := {
  running : bool;
  written : list output_event;
  world : World;
}.
Arguments running {World} _.
Arguments written {World} _.
Arguments world {World} _.

(** The end of the [while] loop: left by [break] or by its condition, or
    by an exception; with the input not yet read. *)
Inductive loop_end (World : Type) : Type :=
| Left (unread : list input_event) (st : console World)
| Raised (o : outcome) (unread : list input_event) (st : console World).
Arguments Left {World} unread st.
Arguments Raised {World} o unread st.

Definition emit {World} (e : output_event) (st : console World) : console World :=
  {| running := running st; written := written st ++ [e]; world := world st |}.

Section InteractiveModel.

Variable World : Type.

(** [self.morphological_analyzer.analyze] and [self.texts_formatter.format],
    and whether [os.name] is "nt". *)
Variable morphological_analyzer_analyze : list N → result (list TaggedTokens).
Variable texts_formatter_format : list TaggedTokens → io World (list N).
Variable os_name_is_nt : bool.

(** [InteractiveMode.start] (main.py, lines 236-238). *)
Definition start (st : console World) : console World :=
  emit (Print (ustr "Interactive mode has been initiated."))
    {| running := true; written := written st; world := world st |}.

(** [InteractiveMode.stop] (main.py, lines 240-242). *)
Definition stop (st : console World) : console World :=
  emit (Print (ustr "Interactive mode has been terminated."))
    {| running := false; written := written st; world := world st |}.

(** [InteractiveMode.help] (main.py, lines 244-247). *)
Definition help (st : console World) : console World :=
  emit (Print (ustr "Type 'help' to show this message"))
    (emit (Print (ustr "Type 'c' to clear the screen"))
       (emit (Print (ustr "Type 'q' to quit")) st)).

(** [InteractiveMode.clear] (main.py, lines 277-284). *)
Definition clear (st : console World) : console World :=
  if os_name_is_nt then emit (System (ustr "cls")) st
  else emit (System (ustr "clear")) st.

(** The [while] loop of [run] (main.py, lines 253-273), by recursion on
    the input that is left. *)
Fixpoint while_running (unread : list input_event) (st : console World)
  : loop_end World :=
  if negb (running st) then Left unread st
  else
    let st := emit (Prompt (ustr "> ")) st in
    match unread with
    | [] => Raised UncaughtEOF [] st
    | Interrupt :: unread => Left unread st
    | Line command :: unread =>
        if decide (command = ustr "q") then Left unread st
        else if decide (command = ustr "c") then while_running unread (clear st)
        else if decide (command = ustr "help") then while_running unread (help st)
        else
          match morphological_analyzer_analyze command with
          | Raise e => Raised (Uncaught e) unread st
          | Ok analyzed_texts =>
              match texts_formatter_format analyzed_texts (world st) with
              | (Raise e, w) =>
                  Raised (Uncaught e) unread
                    {| running := running st; written := written st; world := w |}
              | (Ok formatted_texts, w) =>
                  while_running unread
                    (emit (Print formatted_texts)
                       {| running := running st; written := written st; world := w |})
              end
          end
    end.

(** [InteractiveMode.run] (main.py, lines 249-275). *)
Definition run (stdin : list input_event) (st : console World)
  : outcome * list input_event * console World :=
  let st := clear st in
  let st := start st in
  match while_running stdin st with
  | Left unread st => (Returned, unread, stop st)
  | Raised o unread st => (o, unread, st)
  end.

(** What the loop writes for a line that is one of the commands "c" and
    "help": the prompt, then what [clear] or [help] writes. *)
Definition is_command (e : input_event) : Prop :=
  e = Line (ustr "c") ∨ e = Line (ustr "help").

Definition command_events (e : input_event) : list output_event :=
  Prompt (ustr "> ")
  :: (if decide (e = Line (ustr "c"))
      then [System (if os_name_is_nt then ustr "cls" else ustr "clear")]
      else [ Print (ustr "Type 'q' to quit");
             Print (ustr "Type 'c' to clear the screen");
             Print (ustr "Type 'help' to show this message") ]).

(** What [run] writes before the loop, and after it when it returns. *)
Definition opening_events : list output_event :=
  [ System (if os_name_is_nt then ustr "cls" else ustr "clear");
    Print (ustr "Interactive mode has been initiated.") ].

Definition closing_event : output_event :=
  Print (ustr "Interactive mode has been terminated.").

End InteractiveModel.

(** A stand-in for [nltk] in the closed examples: one sentence per line,
    words separated by spaces, and a tagger that knows four tokens. *)
Module Nltk.

Fixpoint split_on (sep : N) (s : list N) (current : list N) : list (list N) :=
  match s with
  | [] => if decide (current = []) then [] else [current]
  | c :: s' =>
      if decide (c = sep)
      then (if decide (current = []) then [] else [current]) ++ split_on sep s' []
      else split_on sep s' (current ++ [c])
  end.

Definition sent_tokenize (texts : list N) : result (list (list N)) :=
  Ok (split_on newline texts []).

Definition word_tokenize (text : list N) : result (list (list N)) :=
  Ok (split_on space text []).

Definition tag_of (token : list N) : list N :=
  if decide (token = ustr "The") then ustr "DT"
  else if decide (token = ustr "fox") then ustr "NN"
  else if decide (token = ustr "jumps") then ustr "VBZ"
  else if decide (token = ustr ":") then ustr ":"
  else ustr "NN".

Definition pos_tag (tokens : list (list N)) : result (list (list N * list N)) :=
  Ok ((λ token, (token, tag_of token)) <$> tokens).

End Nltk.

(** The analyzer and the loop linked with the concrete libraries. *)
Module Session.

Definition analyze : MorphologicalAnalyzer → list N → result (list TaggedTokens) :=
  analyze Nltk.sent_tokenize Nltk.word_tokenize Nltk.pos_tag.

Definition run (analyzer : MorphologicalAnalyzer) (formatter : TextsFormatter)
  : list input_event → console Env.World → outcome * list input_event * console Env.World :=
  run Env.World (analyze analyzer) (Demo.format formatter) false.

Definition fresh : console Env.World :=
  {| running := false; written := []; world := tt |}.

(** The sentence "The fox" as the analyzer hands it over in Japanese
    mode, and its three lines in inline mode without colour. *)
Definition the_fox_sentence : TaggedTokens :=
  {| text := ustr "The fox"; token_tag_pairs := Demo.the_fox |}.

Definition the_sentence : TaggedTokens :=
  {| text := ustr "The"; token_tag_pairs := [(ustr "The", ustr "DT")] |}.

Definition the_fox_lines : list (list N) :=
  [ ustr " The fox ";
    [space] ++ replicate 3 underline_glyph ++ [space] ++ replicate 4 underline_glyph;
    ustr " DT  " ++ Demo.meishi ].

Definition rule_line (width : nat) : list N :=
  [newline] ++ replicate width rule_glyph ++ [newline].

(** Formatters that translate: without a language code, and to Japanese. *)
Definition translating (language_code : option (list N)) : TextsFormatter :=
  {| is_list := false; is_translate := true; language_code := language_code;
     color_enabled := false; colors_to_remove := [] |}.

(** A coloured formatter that is left with the colour "red" only. *)
Definition one_colour : TextsFormatter :=
  Demo.config_without false true Demo.all_but_red.

(** A terminal that cannot be asked for its size. *)
Definition no_terminal : io Env.World nat :=
  io_lift (Raise (OSError "Inappropriate ioctl for device")).

End Session.

(** * Verification *)

Lemma bind_Ok {A B} (a : A) (k : A → result B) : (x ← Ok a; k x) = k a.
Proof. reflexivity. Qed.

Lemma bind_Raise {A B} (e : exn) (k : A → result B) : (x ← Raise e; k x) = Raise e.
Proof. reflexivity. Qed.

Lemma sum_list_cons (x : nat) (l : list nat) :
  sum_list (x :: l) = x + sum_list l.
Proof. reflexivity. Qed.

Lemma abs_diff_lt (a b : nat) : a < b → abs_diff a b = b - a.
Proof. unfold abs_diff. lia. Qed.

(** ** Sorting by length *)

Lemma insert_by_len_perm x l : insert_by_len x l ≡ₚ x :: l.
Proof.
  induction l as [|y l IH]; [done|]. cbn [insert_by_len].
  case_decide; [done|]. rewrite IH. apply Permutation_swap.
Qed.

Lemma sorted_by_len_perm l : sorted_by_len l ≡ₚ l.
Proof.
  induction l as [|x l IH]; [done|]. cbn [sorted_by_len].
  by rewrite insert_by_len_perm, IH.
Qed.

Lemma insert_by_len_sorted x l :
  Sorted shorter_eq l → Sorted shorter_eq (insert_by_len x l).
Proof.
  induction 1 as [|y l Hs IH Hhd]; cbn [insert_by_len].
  - by repeat constructor.
  - case_decide as Hle.
    + constructor; [by constructor|]. by constructor.
    + constructor; [done|].
      destruct l as [|z l]; cbn [insert_by_len].
      * constructor. unfold shorter_eq. lia.
      * case_decide; constructor; unfold shorter_eq; [lia|].
        by inversion Hhd.
Qed.

Lemma sorted_by_len_sorted l : Sorted shorter_eq (sorted_by_len l).
Proof.
  induction l as [|x l IH]; [constructor|]. by apply insert_by_len_sorted.
Qed.

(** The sort is stable: strings of one length keep their order. *)
Lemma insert_by_len_filter n x l :
  Sorted shorter_eq l →
  filter (λ s, length s = n) (insert_by_len x l)
  = filter (λ s, length s = n) (x :: l).
Proof.
  intros Hs. apply Sorted_StronglySorted in Hs; [|intros a b c; unfold shorter_eq; lia].
  induction Hs as [|y l Hs IH Hall]; [done|]. cbn [insert_by_len].
  case_decide as Hle; [done|].
  rewrite (filter_cons _ y), IH, !(filter_cons _ x), (filter_cons _ y).
  destruct (decide (length x = n)) as [Hx|Hx]; [|done].
  destruct (decide (length y = n)) as [Hy|Hy]; [lia|done].
Qed.

Lemma sorted_by_len_stable n l :
  filter (λ s, length s = n) (sorted_by_len l) = filter (λ s, length s = n) l.
Proof.
  induction l as [|x l IH]; [done|]. cbn [sorted_by_len].
  rewrite insert_by_len_filter by apply sorted_by_len_sorted.
  by rewrite !filter_cons, IH.
Qed.

(** ** Escape characters *)

Lemma contains_ansi_escape_ESC s : ESC ∉ s → contains_ansi_escape s = false.
Proof.
  induction s as [|c s IH]; [done|]. intros Hnot.
  apply not_elem_of_cons in Hnot as [Hne Hnot]. cbn [contains_ansi_escape].
  rewrite IH by done. rewrite bool_decide_eq_false_2 by done. done.
Qed.

Lemma ESC_not_in_repeat c n : c ≠ ESC → ESC ∉ repeat_char c n.
Proof.
  intros Hne Hin. apply elem_of_replicate in Hin as [Heq _]. by apply Hne.
Qed.

Lemma ESC_not_in_ljust s width : ESC ∉ s → ESC ∉ ljust s width.
Proof.
  intros Hs. unfold ljust. rewrite elem_of_app. intros [?|Hin]; [done|].
  by apply ESC_not_in_repeat in Hin.
Qed.

Lemma ESC_not_in_join sep l :
  ESC ∉ sep → Forall (λ s, ESC ∉ s) l → ESC ∉ join sep l.
Proof.
  intros Hsep. induction 1 as [|x l Hx Hl IH]; [apply not_elem_of_nil|].
  cbn [join]. destruct l as [|y l]; [done|].
  rewrite !elem_of_app. intros [?|[?|?]]; tauto.
Qed.

Section Verification.

Variable normalize_NFKC : list N → list N.
Variable east_asian_width : N → eaw.
Variable COLORS : list (list N * N).
Variable colored : list N → list N → list N.
Variable set_iter : list (list N) → list (list N).

Local Abbreviation adjust_length_ja_en :=
  (adjust_length_ja_en normalize_NFKC east_asian_width).
Local Abbreviation char_width := (char_width east_asian_width).
Local Abbreviation display_width_spec :=
  (display_width_spec normalize_NFKC east_asian_width).
Local Abbreviation available_colors := (available_colors COLORS).
Local Abbreviation generate_color_tag := (generate_color_tag COLORS).
Local Abbreviation loop_body :=
  (loop_body normalize_NFKC east_asian_width colored).
Local Abbreviation format_token_tag_pairs :=
  (format_token_tag_pairs normalize_NFKC east_asian_width COLORS colored set_iter).
Local Abbreviation shown_tag := (shown_tag colored).
Local Abbreviation column_width := (column_width normalize_NFKC east_asian_width).
Local Abbreviation token_cell := (token_cell normalize_NFKC east_asian_width).
Local Abbreviation tag_padding := (tag_padding normalize_NFKC east_asian_width).
Local Abbreviation tag_cell := (tag_cell normalize_NFKC east_asian_width colored).
Local Abbreviation underline_cell :=
  (underline_cell normalize_NFKC east_asian_width colored).

(** ** Width calculator *)

Lemma width_loop_acc (l : list N) (acc : nat) :
  foldl (λ adjusted_length character,
           if decide (east_asian_width character = EA_W)
           then adjusted_length + 2
           else adjusted_length + 1) acc l
  = acc + sum_list (char_width <$> l).
Proof.
  revert acc. induction l as [|c l IH]; intros acc.
  - simpl. lia.
  - rewrite fmap_cons. cbn [foldl]. rewrite IH, sum_list_cons.
    unfold char_width at 2. case_decide; lia.
Qed.

Lemma adjust_length_ja_en_sum (s : list N) :
  adjust_length_ja_en s = display_width_spec s.
Proof.
  unfold adjust_length_ja_en, display_width_spec.
  by rewrite width_loop_acc.
Qed.

Lemma sum_char_width_narrow (l : list N) :
  Forall (λ c, east_asian_width c ≠ EA_W) l →
  sum_list (char_width <$> l) = length l.
Proof.
  induction 1 as [|c l Hc _ IH]; [done|].
  rewrite fmap_cons, sum_list_cons, IH.
  unfold char_width. case_decide; [done|]. reflexivity.
Qed.

Lemma sum_char_width_wide (l : list N) :
  Forall (λ c, east_asian_width c = EA_W) l →
  sum_list (char_width <$> l) = 2 * length l.
Proof.
  induction 1 as [|c l Hc _ IH]; [done|].
  rewrite fmap_cons, sum_list_cons, IH.
  unfold char_width. case_decide; [|done]. cbn [length]. lia.
Qed.

(** ** Colour allocator *)

(** The names of a dictionary are pairwise distinct. *)
Hypothesis COLORS_keys_NoDup : NoDup COLORS.*1.

Lemma zip_insert_lookup_other (tags colors : list (list N)) (m0 : gmap (list N) (list N)) t :
  (∀ i, tags !! i = Some t → length colors ≤ i) →
  foldl (λ result '(tag, color), <[tag := color]> result) m0 (zip tags colors) !! t
  = m0 !! t.
Proof.
  revert colors m0. induction tags as [|t0 tags IH]; intros colors m0 Hout; [done|].
  destruct colors as [|c0 colors]; [done|]. cbn [zip zip_with foldl].
  rewrite IH.
  - apply lookup_insert_ne. intros ->. specialize (Hout 0 eq_refl). simpl in Hout. lia.
  - intros i Hi. specialize (Hout (S i) Hi). simpl in Hout. lia.
Qed.

Lemma zip_insert_lookup_at (tags colors : list (list N)) (m0 : gmap (list N) (list N)) i t c :
  NoDup tags → tags !! i = Some t → colors !! i = Some c →
  foldl (λ result '(tag, color), <[tag := color]> result) m0 (zip tags colors) !! t
  = Some c.
Proof.
  revert colors m0 i. induction tags as [|t0 tags IH]; intros colors m0 i Hnd Ht Hc; [done|].
  destruct colors as [|c0 colors]; [done|]. cbn [zip zip_with foldl].
  apply NoDup_cons in Hnd as [Hnotin Hnd].
  destruct i as [|i]; simpl in Ht, Hc.
  - injection Ht as ->. injection Hc as ->.
    rewrite zip_insert_lookup_other; [apply lookup_insert_eq|].
    intros j Hj. exfalso. apply Hnotin. by eapply list_elem_of_lookup_2.
  - by eapply IH.
Qed.

Lemma zip_insert_lookup_inv (tags colors : list (list N)) (m0 : gmap (list N) (list N)) t c :
  foldl (λ result '(tag, color), <[tag := color]> result) m0 (zip tags colors) !! t
  = Some c →
  (∃ i, tags !! i = Some t ∧ colors !! i = Some c) ∨ m0 !! t = Some c.
Proof.
  revert colors m0. induction tags as [|t0 tags IH]; intros colors m0 Hm; [by right|].
  destruct colors as [|c0 colors]; [by right|]. cbn [zip zip_with foldl] in Hm.
  apply IH in Hm as [(i & Ht & Hc)|Hm].
  - left. by exists (S i).
  - destruct (decide (t0 = t)) as [->|Hne].
    + rewrite lookup_insert_eq in Hm. injection Hm as ->. left. by exists 0.
    + rewrite lookup_insert_ne in Hm by done. by right.
Qed.

Lemma available_colors_NoDup remove : NoDup (available_colors remove).
Proof. unfold available_colors. by apply NoDup_filter. Qed.

Lemma available_colors_elem remove c :
  c ∈ available_colors remove ↔ (c ∉ remove) ∧ c ∈ COLORS.*1.
Proof. unfold available_colors. rewrite list_elem_of_filter. done. Qed.

(** The allocator pairs the [i]-th tag with the [i]-th available colour. *)
Lemma generate_color_tag_lookup tags remove i t :
  NoDup tags → tags !! i = Some t →
  generate_color_tag tags remove !! t = available_colors remove !! i.
Proof.
  intros Hnd Ht. unfold generate_color_tag.
  destruct (available_colors remove !! i) as [c|] eqn:Hc.
  - by eapply zip_insert_lookup_at.
  - rewrite zip_insert_lookup_other; [done|].
    intros j Hj. assert (j = i) as -> by (by eapply (NoDup_lookup tags)).
    by apply lookup_ge_None.
Qed.

Lemma generate_color_tag_inv tags remove t c :
  generate_color_tag tags remove !! t = Some c →
  ∃ i, tags !! i = Some t ∧ available_colors remove !! i = Some c.
Proof.
  intros Hm. apply zip_insert_lookup_inv in Hm as [?|Hm]; [done|].
  by rewrite lookup_empty in Hm.
Qed.


(** ** Line composer *)

(** What every hash set guarantees of its iteration: each element once,
    and the elements are those added. *)
Hypothesis set_iter_NoDup : ∀ l, NoDup (set_iter l).
Hypothesis set_iter_elem : ∀ l x, x ∈ set_iter l ↔ x ∈ l.

Lemma line_of_cons cell p pairs :
  line_of cell (p :: pairs) = space :: cell p.1 p.2 ++ line_of cell pairs.
Proof. reflexivity. Qed.

Lemma loop_body_ok self color_tag st token tag :
  (color_enabled self = true → is_Some (color_tag !! tag)) →
  ∃ st', loop_body self color_tag st (token, tag) = Ok st'
    ∧ st_tokens st' = st_tokens st ++ space :: token_cell self token tag
    ∧ st_under_line st' = st_under_line st ++ space :: underline_cell self color_tag token tag
    ∧ st_part_of_speech_line st'
      = st_part_of_speech_line st ++ space :: tag_cell self color_tag token tag
    ∧ st_tag_list st'
      = st_tag_list st ++ (if is_list self then [shown_tag self color_tag tag] else []).
Proof.
  intros Hkey.
  unfold loop_body, token_cell, underline_cell, tag_cell, tag_padding, shown_tag,
    column_width, color_of, dict_getitem.
  destruct (color_enabled self) eqn:Hc;
    [destruct (Hkey eq_refl) as [c Hc']; rewrite Hc'|];
    cbn; destruct (is_list self); cbn; try case_decide;
    (eexists; split; [reflexivity|]); cbn;
    rewrite ?abs_diff_lt by done; rewrite ?app_nil_r;
    repeat split; try done.
  all: replace (_ `max` _ - _) with 0 by lia; cbn; by rewrite ?app_nil_r.
Qed.

Lemma loop_body_raise self color_tag st token tag :
  color_enabled self = true → color_tag !! tag = None →
  loop_body self color_tag st (token, tag) = Raise (KeyError tag).
Proof.
  intros Hc Hnone. unfold loop_body, dict_getitem. by rewrite Hc, Hnone.
Qed.

Lemma for_each_loop_ok self color_tag pairs st :
  Forall (λ p, color_enabled self = true → is_Some (color_tag !! p.2)) pairs →
  ∃ st', for_each (loop_body self color_tag) st pairs = Ok st'
    ∧ st_tokens st' = st_tokens st ++ line_of (token_cell self) pairs
    ∧ st_under_line st' = st_under_line st ++ line_of (underline_cell self color_tag) pairs
    ∧ st_part_of_speech_line st'
      = st_part_of_speech_line st ++ line_of (tag_cell self color_tag) pairs
    ∧ st_tag_list st'
      = st_tag_list st
        ++ (if is_list self then shown_tag self color_tag <$> pairs.*2 else []).
Proof.
  intros Hall. revert st. induction Hall as [|[token tag] pairs Hkey _ IH]; intros st.
  - exists st. cbn. rewrite !app_nil_r. repeat split; try done.
    destruct (is_list self); by rewrite app_nil_r.
  - destruct (loop_body_ok self color_tag st token tag Hkey)
      as (st1 & Hst1 & Ht & Hu & Hp & Hl).
    destruct (IH st1) as (st' & Hst' & Ht' & Hu' & Hp' & Hl').
    exists st'. cbn [for_each]. rewrite Hst1, bind_Ok. split; [done|].
    rewrite Ht', Hu', Hp', Hl', Ht, Hu, Hp, Hl, !line_of_cons. cbn [fst snd].
    rewrite <- !(assoc_L (++)). repeat split; try done.
    destruct (is_list self); [done|]. by rewrite !app_nil_r.
Qed.

Lemma for_each_loop_raise self color_tag pairs st :
  color_enabled self = true →
  Exists (λ p, color_tag !! p.2 = None) pairs →
  ∃ key, for_each (loop_body self color_tag) st pairs = Raise (KeyError key)
    ∧ key ∈ pairs.*2 ∧ color_tag !! key = None.
Proof.
  intros Hc. revert st. induction pairs as [|[token tag] pairs IH]; intros st Hex.
  - by apply Exists_nil in Hex.
  - destruct (color_tag !! tag) as [c|] eqn:Htag.
    + apply Exists_cons in Hex as [Hex|Hex]; [simpl in Hex; congruence|].
      destruct (loop_body_ok self color_tag st token tag) as (st1 & Hst1 & _).
      { intros _. by rewrite Htag. }
      destruct (IH st1 Hex) as (key & Hr & Hin & Hnone).
      exists key. cbn [for_each]. rewrite Hst1, bind_Ok. split; [done|].
      split; [|done]. rewrite fmap_cons, elem_of_cons. by right.
    + exists tag. cbn [for_each]. rewrite loop_body_raise, bind_Raise by done.
      split; [done|]. split; [|done]. rewrite fmap_cons, elem_of_cons. by left.
Qed.


(** *** The whole composer *)

Lemma tags_have_colors remove (pairs : list (list N * list N)) :
  length (set_iter pairs.*2) ≤ length (available_colors remove) →
  Forall (λ p, is_Some (generate_color_tag (set_iter pairs.*2) remove !! p.2)) pairs.
Proof.
  intros Hle. apply Forall_forall. intros [token tag] Hin.
  assert (tag ∈ set_iter pairs.*2) as Htag.
  { apply set_iter_elem, list_elem_of_fmap. by exists (token, tag). }
  apply list_elem_of_lookup in Htag as [i Hi]. cbn [snd].
  rewrite (generate_color_tag_lookup _ _ i) by done.
  apply lookup_lt_is_Some. apply lookup_lt_Some in Hi. lia.
Qed.

Lemma some_tag_without_color remove (pairs : list (list N * list N)) :
  length (available_colors remove) < length (set_iter pairs.*2) →
  Exists (λ p, generate_color_tag (set_iter pairs.*2) remove !! p.2 = None) pairs.
Proof.
  intros Hlt.
  destruct (lookup_lt_is_Some_2 (set_iter pairs.*2) (length (available_colors remove)))
    as [tag Htag]; [done|].
  assert (tag ∈ pairs.*2) as Hin.
  { apply set_iter_elem. by eapply list_elem_of_lookup_2. }
  apply list_elem_of_fmap in Hin as ([token tag'] & -> & Hin).
  apply Exists_exists. exists (token, tag'). split; [done|]. cbn [snd] in *.
  rewrite (generate_color_tag_lookup _ _ _ _ (set_iter_NoDup _) Htag).
  by apply lookup_ge_None.
Qed.

Lemma format_token_tag_pairs_ok self pairs :
  (color_enabled self = true →
   length (set_iter pairs.*2) ≤ length (available_colors (colors_to_remove self))) →
  let color_tag := generate_color_tag (set_iter pairs.*2) (colors_to_remove self) in
  format_token_tag_pairs self pairs
  = Ok [ line_of (token_cell self) pairs;
         line_of (underline_cell self color_tag) pairs;
         if is_list self
         then bullet_list (sorted_by_len (set_iter (shown_tag self color_tag <$> pairs.*2)))
         else line_of (tag_cell self color_tag) pairs ].
Proof.
  intros Hfit color_tag. unfold format_token_tag_pairs. fold color_tag.
  destruct (for_each_loop_ok self color_tag pairs loop_init)
    as (st & Hst & Ht & Hu & Hp & Hl).
  { destruct (color_enabled self) eqn:Hc.
    - eapply Forall_impl; [apply tags_have_colors; by apply Hfit|]. by intros p Hp _.
    - apply Forall_forall. by intros p _ ?. }
  cbn [loop_init st_tokens st_under_line st_part_of_speech_line st_tag_list app] in *.
  rewrite Hst, bind_Ok, Ht, Hu, Hp, Hl.
  unfold bullet_list. by destruct (is_list self).
Qed.

Lemma format_token_tag_pairs_raise self pairs :
  color_enabled self = true →
  Exists (λ p, generate_color_tag (set_iter pairs.*2) (colors_to_remove self) !! p.2 = None)
    pairs →
  ∃ key, format_token_tag_pairs self pairs = Raise (KeyError key)
    ∧ key ∈ pairs.*2
    ∧ generate_color_tag (set_iter pairs.*2) (colors_to_remove self) !! key = None.
Proof.
  intros Hc Hex. unfold format_token_tag_pairs.
  destruct (for_each_loop_raise self _ pairs loop_init Hc Hex) as (key & Hr & Hin & Hnone).
  exists key. by rewrite Hr, bind_Raise.
Qed.

(** C5. When the tags are pairwise distinct and no more numerous than the
    palette colours outside the exclusion list, the allocator gives every
    tag a colour of the palette that is not excluded, gives no colour to
    two tags, and maps nothing but the tags. *)
Theorem generate_color_tag_injective tags remove :
  NoDup tags →
  length tags ≤ length (available_colors remove) →
  let color_tag := generate_color_tag tags remove in
  (∀ tag, tag ∈ tags →
     ∃ color, color_tag !! tag = Some color ∧ color ∈ COLORS.*1 ∧ (color ∉ remove))
  ∧ (∀ tag1 tag2 color,
       color_tag !! tag1 = Some color → color_tag !! tag2 = Some color → tag1 = tag2)
  ∧ (∀ tag color, color_tag !! tag = Some color → tag ∈ tags ∧ (color ∉ remove)).
Proof.
  intros Hnd Hle color_tag. split; [|split].
  - intros tag Hin. apply list_elem_of_lookup in Hin as [i Hi].
    destruct (lookup_lt_is_Some_2 (available_colors remove) i) as [color Hcolor].
    { apply lookup_lt_Some in Hi. lia. }
    exists color. unfold color_tag.
    rewrite (generate_color_tag_lookup _ _ i) by done. split; [done|].
    apply list_elem_of_lookup_2, available_colors_elem in Hcolor as [? ?]. done.
  - intros tag1 tag2 color H1 H2.
    apply generate_color_tag_inv in H1 as (i & Hi & Hci).
    apply generate_color_tag_inv in H2 as (j & Hj & Hcj).
    assert (i = j) as ->
      by (eapply (NoDup_lookup (available_colors remove));
          [apply available_colors_NoDup|done..]).
    congruence.
  - intros tag color Hm. apply generate_color_tag_inv in Hm as (i & Hi & Hci).
    split; [by eapply list_elem_of_lookup_2|].
    by apply list_elem_of_lookup_2, available_colors_elem in Hci as [? ?].
Qed.

(** C6. When the distinct tags outnumber the palette colours outside the
    exclusion list, the allocator pairs the i-th tag with the i-th such
    colour and leaves every later tag out of the mapping, no colour being
    used twice; and with colour enabled the composer raises [KeyError], at
    a tag of its input that has no colour, whenever the input holds such a
    tag, which is the case as soon as its distinct tags outnumber the
    colours. *)
Theorem palette_exhaustion :
  (∀ tags remove,
     NoDup tags → length (available_colors remove) < length tags →
     let color_tag := generate_color_tag tags remove in
     (∀ i tag, tags !! i = Some tag →
        color_tag !! tag = available_colors remove !! i)
     ∧ (∀ i tag, tags !! i = Some tag → length (available_colors remove) ≤ i →
          color_tag !! tag = None)
     ∧ (∃ tag, tag ∈ tags ∧ color_tag !! tag = None)
     ∧ (∀ tag1 tag2 color,
          color_tag !! tag1 = Some color → color_tag !! tag2 = Some color →
          tag1 = tag2))
  ∧ (∀ self pairs,
       color_enabled self = true →
       let color_tag := generate_color_tag (set_iter pairs.*2) (colors_to_remove self) in
       (Exists (λ p, color_tag !! p.2 = None) pairs
        ∨ length (available_colors (colors_to_remove self)) < length (set_iter pairs.*2)) →
       ∃ key, format_token_tag_pairs self pairs = Raise (KeyError key)
         ∧ key ∈ pairs.*2 ∧ color_tag !! key = None).
Proof.
  split.
  - intros tags remove Hnd Hlt color_tag. split; [|split; [|split]].
    + intros i tag Hi. by apply generate_color_tag_lookup.
    + intros i tag Hi Hge. unfold color_tag.
      rewrite (generate_color_tag_lookup _ _ i) by done. by apply lookup_ge_None.
    + destruct (lookup_lt_is_Some_2 tags (length (available_colors remove)))
        as [tag Htag]; [done|].
      exists tag. split; [by eapply list_elem_of_lookup_2|]. unfold color_tag.
      rewrite (generate_color_tag_lookup _ _ _ _ Hnd Htag). by apply lookup_ge_None.
    + intros tag1 tag2 color H1 H2.
      apply generate_color_tag_inv in H1 as (i & Hi & Hci).
      apply generate_color_tag_inv in H2 as (j & Hj & Hcj).
      assert (i = j) as ->
      by (eapply (NoDup_lookup (available_colors remove));
          [apply available_colors_NoDup|done..]).
      congruence.
  - intros self pairs Hc color_tag [Hex|Hlt].
    + by apply format_token_tag_pairs_raise.
    + apply format_token_tag_pairs_raise; [done|]. by apply some_tag_without_color.
Qed.

(** C3. In inline mode the column of a pair is
    max(len(token), displayWidth(tag)) wide, the width being taken of the
    tag as given, before any colour wraps it; the displayed tag gets
    exactly columnWidth - displayWidth(tag) trailing spaces when
    displayWidth(tag) is below the column width and none otherwise; the
    token always gets the trailing spaces that bring its character count to
    the column width. *)
Theorem inline_mode_columns self pairs :
  is_list self = false →
  (color_enabled self = true →
   length (set_iter pairs.*2) ≤ length (available_colors (colors_to_remove self))) →
  let color_tag := generate_color_tag (set_iter pairs.*2) (colors_to_remove self) in
  let displayWidth := adjust_length_ja_en in
  let columnWidth token tag := max (length token) (displayWidth tag) in
  let displayed tag :=
    if color_enabled self then colored tag (color_of color_tag tag) else tag in
  let padded_tag token tag :=
    if decide (displayWidth tag < columnWidth token tag)
    then displayed tag ++ replicate (columnWidth token tag - displayWidth tag) space
    else displayed tag in
  let padded_token token tag :=
    token ++ replicate (columnWidth token tag - length token) space in
  let marks token tag :=
    if color_enabled self
    then colored (replicate (columnWidth token tag) underline_glyph) (color_of color_tag tag)
    else replicate (columnWidth token tag) underline_glyph in
  format_token_tag_pairs self pairs
  = Ok [ concat ((λ p, space :: padded_token p.1 p.2) <$> pairs);
         concat ((λ p, space :: marks p.1 p.2) <$> pairs);
         concat ((λ p, space :: padded_tag p.1 p.2) <$> pairs) ].
Proof.
  intros Hinline Hfit color_tag displayWidth columnWidth displayed padded_tag
    padded_token marks.
  rewrite format_token_tag_pairs_ok by done. fold color_tag. rewrite Hinline.
  unfold line_of. do 2 f_equal; [|f_equal; [|f_equal]]; f_equal;
    apply list_fmap_ext; intros _ [token tag] _; cbn [fst snd]; f_equal.
  - unfold token_cell, column_width, ljust, repeat_char. by rewrite Hinline.
  - unfold underline_cell, column_width, repeat_char. by rewrite Hinline.
  - unfold tag_cell, tag_padding, column_width, shown_tag, repeat_char,
      padded_tag, displayed, columnWidth, displayWidth.
    rewrite Hinline. case_decide as Hlt; [done|].
    replace (_ `max` _ - _) with 0 by lia. cbn [replicate]. by rewrite app_nil_r.
Qed.

(** ** Alignment of the columns *)

(** Three more facts of the Unicode character database: ASCII text is
    stable under NFKC, no ASCII character is of class Wide, and spaces
    appended to a string stay where they are under NFKC. *)
Hypothesis NFKC_ascii : ∀ s, Forall is_ascii s → normalize_NFKC s = s.
Hypothesis east_asian_width_ascii : ∀ c, is_ascii c → east_asian_width c ≠ EA_W.
Hypothesis NFKC_app_spaces :
  ∀ s n, normalize_NFKC (s ++ replicate n space) = normalize_NFKC s ++ replicate n space.

Lemma adjust_length_ja_en_app_spaces s n :
  adjust_length_ja_en (s ++ repeat_char space n) = adjust_length_ja_en s + n.
Proof.
  rewrite !adjust_length_ja_en_sum. unfold display_width_spec, repeat_char.
  rewrite NFKC_app_spaces, fmap_app, sum_list_with_app. f_equal.
  rewrite sum_char_width_narrow; [apply length_replicate|].
  apply Forall_replicate, east_asian_width_ascii. by unfold is_ascii, space.
Qed.

(** C2. For every string the width calculator returns the sum, over the
    characters of the NFKC-normalised string, of 2 for a character of
    East-Asian width Wide and 1 for any other; the empty string has width 0
    and an ASCII-only string has its character count as width. *)
Theorem adjust_length_ja_en_correct :
  (∀ s, adjust_length_ja_en s
        = sum_list ((λ c, if decide (east_asian_width c = EA_W) then 2 else 1)
                      <$> normalize_NFKC s))
  ∧ adjust_length_ja_en [] = 0
  ∧ (∀ s, Forall is_ascii s → adjust_length_ja_en s = length s).
Proof.
  split; [|split].
  - intros s. apply adjust_length_ja_en_sum.
  - rewrite adjust_length_ja_en_sum. unfold display_width_spec.
    by rewrite NFKC_ascii.
  - intros s Hs. rewrite adjust_length_ja_en_sum. unfold display_width_spec.
    rewrite NFKC_ascii by done. apply sum_char_width_narrow.
    eapply Forall_impl; [exact Hs|]. intros c Hc. by apply east_asian_width_ascii.
Qed.

(** C9 (amended). When the NFKC-normalised form of a string consists solely
    of Wide characters, the width is twice the character count of that
    normalised form; so a string of Wide characters that normalisation
    leaves unchanged has width twice its own character count. *)
Theorem adjust_length_ja_en_wide :
  (∀ s, Forall (λ c, east_asian_width c = EA_W) (normalize_NFKC s) →
        adjust_length_ja_en s = 2 * length (normalize_NFKC s))
  ∧ (∀ s, Forall (λ c, east_asian_width c = EA_W) s →
          normalize_NFKC s = s →
          adjust_length_ja_en s = 2 * length s).
Proof.
  split.
  - intros s Hs. rewrite adjust_length_ja_en_sum. by apply sum_char_width_wide.
  - intros s Hs Hn. rewrite adjust_length_ja_en_sum. unfold display_width_spec.
    rewrite Hn. by apply sum_char_width_wide.
Qed.

(** C1 (amended). In inline mode the token line and the tag line are made
    of one column per pair. For every pair the column is
    max(len(token), displayWidth(tag)) wide and the padded tag, taken
    without its colour wrapping, has that display width; and for every
    pair whose own token has a display width equal to its character count
    (every ASCII token is one) the padded token has that display width
    too, whatever the other tokens of the sequence are. *)
Theorem inline_mode_aligned self pairs :
  is_list self = false →
  (color_enabled self = true →
   length (set_iter pairs.*2) ≤ length (available_colors (colors_to_remove self))) →
  let color_tag := generate_color_tag (set_iter pairs.*2) (colors_to_remove self) in
  (∃ under_line,
     format_token_tag_pairs self pairs
     = Ok [ line_of (λ token tag, ljust token (column_width self token tag)) pairs;
            under_line;
            line_of (λ token tag, shown_tag self color_tag tag
                                  ++ tag_padding self token tag) pairs ])
  ∧ Forall (λ p,
       column_width self p.1 p.2 = max (length p.1) (adjust_length_ja_en p.2)
       ∧ adjust_length_ja_en (p.2 ++ tag_padding self p.1 p.2)
         = column_width self p.1 p.2
       ∧ (Forall is_ascii p.1 ∨ adjust_length_ja_en p.1 = length p.1 →
          adjust_length_ja_en (ljust p.1 (column_width self p.1 p.2))
          = column_width self p.1 p.2)) pairs.
Proof.
  intros Hinline Hfit color_tag. split.
  - eexists. rewrite format_token_tag_pairs_ok by done. fold color_tag.
    rewrite Hinline. reflexivity.
  - apply Forall_forall. intros [token tag] _. cbn [fst snd].
    unfold tag_padding, column_width, ljust. rewrite Hinline.
    rewrite !adjust_length_ja_en_app_spaces.
    split; [done|]. split; [lia|]. intros Htoken.
    assert (adjust_length_ja_en token = length token) as Hwidth.
    { destruct Htoken as [Hascii|?]; [|done].
      rewrite adjust_length_ja_en_sum. unfold display_width_spec.
      rewrite NFKC_ascii by done. apply sum_char_width_narrow.
      eapply Forall_impl; [exact Hascii|]. intros c Hc. by apply east_asian_width_ascii. }
    rewrite Hwidth. lia.
Qed.

(** ** List mode *)

Lemma shown_tag_uncoloured self color_tag tag :
  color_enabled self = false → shown_tag self color_tag tag = tag.
Proof. intros Hc. unfold shown_tag. by rewrite Hc. Qed.

Lemma shown_tags_uncoloured self color_tag (tags : list (list N)) :
  color_enabled self = false → shown_tag self color_tag <$> tags = tags.
Proof.
  intros Hc. rewrite <- (list_fmap_id tags) at 2.
  apply list_fmap_ext. intros _ tag _. by apply shown_tag_uncoloured.
Qed.

(** C4 (amended). In list mode the returned tag text is a bullet list, one
    entry per line behind "- ", whose entries are exactly the distinct tags
    as displayed (wrapped in their colour when colour is enabled), each
    once, in ascending order of the length of the displayed text; with
    colour disabled the entries are exactly the distinct tag texts of the
    input, in ascending order of their length. *)
Theorem list_mode_bullets self pairs :
  is_list self = true →
  (color_enabled self = true →
   length (set_iter pairs.*2) ≤ length (available_colors (colors_to_remove self))) →
  let color_tag := generate_color_tag (set_iter pairs.*2) (colors_to_remove self) in
  ∃ tokens under_line entries,
    format_token_tag_pairs self pairs
    = Ok [tokens; under_line; join [newline] ((λ entry, ustr "- " ++ entry) <$> entries)]
    ∧ NoDup entries
    ∧ (∀ entry, entry ∈ entries ↔ entry ∈ shown_tag self color_tag <$> pairs.*2)
    ∧ Sorted (λ a b, length a ≤ length b) entries
    ∧ (color_enabled self = false → ∀ entry, entry ∈ entries ↔ entry ∈ pairs.*2).
Proof.
  intros Hlist Hfit color_tag.
  exists (line_of (token_cell self) pairs), (line_of (underline_cell self color_tag) pairs),
    (sorted_by_len (set_iter (shown_tag self color_tag <$> pairs.*2))).
  split; [|split; [|split; [|split]]].
  - rewrite format_token_tag_pairs_ok by done. fold color_tag. by rewrite Hlist.
  - rewrite sorted_by_len_perm. apply set_iter_NoDup.
  - intros entry. by rewrite sorted_by_len_perm, set_iter_elem.
  - apply sorted_by_len_sorted.
  - intros Hc entry.
    by rewrite sorted_by_len_perm, set_iter_elem, shown_tags_uncoloured.
Qed.

(** ** Output without colour *)

Lemma line_of_ext cell1 cell2 pairs :
  (∀ token tag, cell1 token tag = cell2 token tag) →
  line_of cell1 pairs = line_of cell2 pairs.
Proof.
  intros Hext. unfold line_of. f_equal. apply list_fmap_ext.
  intros _ p _. by rewrite Hext.
Qed.

Lemma ESC_not_in_line_of cell (pairs : list (list N * list N)) :
  Forall (λ p, ESC ∉ cell p.1 p.2) pairs → ESC ∉ line_of cell pairs.
Proof.
  induction 1 as [|p pairs Hp _ IH]; [apply not_elem_of_nil|].
  rewrite line_of_cons. intros Hin.
  apply elem_of_cons in Hin as [?|Hin]; [done|].
  apply elem_of_app in Hin as [?|?]; [done|by apply IH].
Qed.

Lemma ESC_not_in_bullet_list entries :
  Forall (λ entry, ESC ∉ entry) entries → ESC ∉ bullet_list entries.
Proof.
  intros Hall. unfold bullet_list. apply ESC_not_in_join.
  - by rewrite list_elem_of_singleton.
  - apply Forall_fmap. eapply Forall_impl; [exact Hall|].
    intros entry Hentry. cbn. by rewrite !not_elem_of_cons.
Qed.

(** C10 (amended). With colour disabled the composer always returns, what
    it returns does not depend on [colors_to_remove] (nor on any field
    other than [is_list]), and when no token and no tag of the input holds
    the escape character, no returned line holds it, so that the output is
    free of ANSI escape sequences. *)
Theorem uncoloured_output self1 self2 pairs :
  color_enabled self1 = false →
  color_enabled self2 = false →
  is_list self1 = is_list self2 →
  ∃ lines,
    format_token_tag_pairs self1 pairs = Ok lines
    ∧ format_token_tag_pairs self2 pairs = Ok lines
    ∧ (Forall (λ p, (ESC ∉ p.1) ∧ (ESC ∉ p.2)) pairs →
       Forall (λ line, (ESC ∉ line) ∧ contains_ansi_escape line = false) lines).
Proof.
  intros Hc1 Hc2 Hmode. eexists. split; [|split].
  - apply format_token_tag_pairs_ok. intros Hc. congruence.
  - rewrite format_token_tag_pairs_ok by (intros Hc; congruence). cbv zeta.
    rewrite <- Hmode. f_equal. f_equal; [|f_equal; [|f_equal]].
    + apply line_of_ext. intros token tag.
      unfold token_cell, column_width. by rewrite Hmode.
    + apply line_of_ext. intros token tag.
      unfold underline_cell, column_width. by rewrite Hc1, Hc2, Hmode.
    + destruct (is_list self1) eqn:Hl1.
      * by rewrite !shown_tags_uncoloured.
      * apply line_of_ext. intros token tag.
        unfold tag_cell, tag_padding, column_width.
        rewrite !shown_tag_uncoloured by done. by rewrite <- Hmode, Hl1.
  - intros Hclean.
    assert (∀ line, ESC ∉ line → (ESC ∉ line) ∧ contains_ansi_escape line = false)
      as Hboth by (intros line Hline; split; [done|by apply contains_ansi_escape_ESC]).
    repeat apply Forall_cons_2; [apply Hboth..|apply Forall_nil_2].
    + apply ESC_not_in_line_of. eapply Forall_impl; [exact Hclean|].
      intros p [Htoken _]. by apply ESC_not_in_ljust.
    + apply ESC_not_in_line_of. apply Forall_forall. intros p _.
      unfold underline_cell. rewrite Hc1. by apply ESC_not_in_repeat.
    + destruct (is_list self1) eqn:Hl1.
      * rewrite shown_tags_uncoloured by done. apply ESC_not_in_bullet_list.
        apply Forall_forall. intros entry Hentry.
        rewrite sorted_by_len_perm, set_iter_elem in Hentry.
        apply list_elem_of_fmap in Hentry as (p & -> & Hp).
        rewrite Forall_forall in Hclean. by apply Hclean.
      * apply ESC_not_in_line_of. eapply Forall_impl; [exact Hclean|].
        intros p [_ Htag]. unfold tag_cell, tag_padding.
        rewrite shown_tag_uncoloured, Hl1 by done. rewrite elem_of_app.
        intros [?|Hin]; [done|]. by apply ESC_not_in_repeat in Hin.
Qed.

(** ** Batch formatter and translation *)

Variable World : Type.
Variable os_get_terminal_size : io World nat.
Variable google_translator : Type.
Variable googletrans_Translator : io World google_translator.
Variable googletrans_translate :
  google_translator → list N → list N → io World (list N).
Variable deepl_translator : Type.
Variable deepl_Translator : list N → io World deepl_translator.
Variable deepl_translate_text :
  deepl_translator → list N → list N → list N → io World (list N).
Variable langdetect_detect : list N → io World (list N).

Local Abbreviation translate :=
  (translate World google_translator googletrans_Translator googletrans_translate).
Local Abbreviation translate_DeepL :=
  (translate_DeepL World deepl_translator deepl_Translator deepl_translate_text
     langdetect_detect).
Local Abbreviation format :=
  (format normalize_NFKC east_asian_width COLORS colored set_iter World
     os_get_terminal_size google_translator googletrans_Translator
     googletrans_translate).
Local Abbreviation format_DeepL :=
  (format_DeepL normalize_NFKC east_asian_width COLORS colored set_iter World
     os_get_terminal_size deepl_translator deepl_Translator deepl_translate_text
     langdetect_detect).

Lemma set_iter_nil : set_iter [] = [].
Proof.
  apply elem_of_nil_inv. intros x Hx. rewrite set_iter_elem in Hx.
  by apply elem_of_nil in Hx.
Qed.

(** C7 (amended). When [language_code] is [None], [translate] returns the
    text unchanged, and leaves the world as the construction of the
    client left it, provided that construction succeeds: both methods
    build their client before they look at [language_code]. *)
Theorem translate_without_language_code :
  (∀ self text w translator w',
     language_code self = None →
     googletrans_Translator w = (Ok translator, w') →
     translate self text w = (Ok text, w'))
  ∧ (∀ self text w translator w',
       language_code (base self) = None →
       deepl_Translator (api_key self) w = (Ok translator, w') →
       translate_DeepL self text w = (Ok text, w')).
Proof.
  split; intros self text w translator w' Hnone Hclient.
  - unfold translate, mbind, io_bind. by rewrite Hclient, Hnone.
  - unfold translate_DeepL, mbind, io_bind. by rewrite Hclient, Hnone.
Qed.

(** C8. On an empty sequence of tagged sentences [format] returns the
    empty string, for an object of either class and without touching the
    world; on an empty sequence of pairs the composer returns three empty
    strings, whatever the mode and the colour setting. Neither raises. *)
Theorem empty_input self (self_deepl : TextsFormatterDeepL) w :
  format self [] w = (Ok [], w)
  ∧ format_DeepL self_deepl [] w = (Ok [], w)
  ∧ format_token_tag_pairs self [] = Ok [[]; []; []].
Proof.
  split; [done|]. split; [done|].
  unfold format_token_tag_pairs. cbn [for_each fmap list_fmap].
  change (mret loop_init) with (Ok loop_init). rewrite bind_Ok.
  cbn [st_tokens st_under_line st_part_of_speech_line st_tag_list loop_init].
  rewrite set_iter_nil. by destruct (is_list self).
Qed.

End Verification.

(** * The concrete libraries meet the assumptions *)

Lemma UCD_compatibility_mapping_ascii c :
  is_ascii c → UCD.compatibility_mapping c = [c].
Proof.
  unfold is_ascii, UCD.compatibility_mapping, UCD.in_range. intros Hc.
  destruct (N.leb_spec 0xFF01 c); [lia|]. cbn [andb].
  destruct (N.eqb_spec c 0x3000); [lia|].
  destruct (N.eqb_spec c 0x33A0); [lia|]. done.
Qed.

Lemma UCD_NFKC_ascii s : Forall is_ascii s → UCD.normalize_NFKC s = s.
Proof.
  unfold UCD.normalize_NFKC. induction 1 as [|c s Hc _ IH]; [done|].
  rewrite bind_cons, IH, UCD_compatibility_mapping_ascii by done. done.
Qed.

Lemma UCD_east_asian_width_ascii c : is_ascii c → UCD.east_asian_width c ≠ EA_W.
Proof.
  unfold is_ascii, UCD.east_asian_width, UCD.in_range. intros Hc.
  destruct (N.leb_spec 0x20 c), (N.leb_spec c 0x7E); cbn [andb]; try done.
  all: destruct (N.leb_spec 0x2500 c); [lia|]; cbn [andb orb].
  all: destruct (N.leb_spec 0x2592 c); [lia|]; cbn [andb orb].
  all: destruct (N.eqb_spec c 0x3000); [lia|].
  all: destruct (N.leb_spec 0x3041 c); [lia|]; cbn [andb orb].
  all: destruct (N.leb_spec 0x30A1 c); [lia|]; cbn [andb orb].
  all: destruct (N.leb_spec 0x3300 c); [lia|]; cbn [andb orb].
  all: destruct (N.leb_spec 0x4E00 c); [lia|]; cbn [andb orb].
  all: destruct (N.leb_spec 0xFF01 c); [lia|]; cbn [andb orb]; done.
Qed.

Lemma UCD_NFKC_app_spaces s n :
  UCD.normalize_NFKC (s ++ replicate n space)
  = UCD.normalize_NFKC s ++ replicate n space.
Proof.
  unfold UCD.normalize_NFKC. rewrite bind_app. f_equal.
  induction n as [|n IH]; [done|]. cbn [replicate]. by rewrite bind_cons, IH.
Qed.

Lemma Termcolor_COLORS_keys_NoDup : NoDup Termcolor.COLORS.*1.
Proof. by_compute. Qed.

Lemma Env_set_iter_NoDup l : NoDup (Env.set_iter l).
Proof. unfold Env.set_iter. rewrite reverse_Permutation. apply NoDup_remove_dups. Qed.

Lemma Env_set_iter_elem l x : x ∈ Env.set_iter l ↔ x ∈ l.
Proof.
  unfold Env.set_iter. by rewrite elem_of_reverse, elem_of_remove_dups, elem_of_reverse.
Qed.

(** * Closed instances and counterexamples *)

Section Examples.

Local Abbreviation column_width := (column_width UCD.normalize_NFKC UCD.east_asian_width).
Local Abbreviation tag_padding := (tag_padding UCD.normalize_NFKC UCD.east_asian_width).
Local Abbreviation shown_tag := (shown_tag Termcolor.colored).

(** C2 at the token "fox". *)
Lemma adjust_length_ja_en_correct_witness :
  Forall is_ascii (ustr "fox") ∧ Demo.adjust_length_ja_en (ustr "fox") = 3.
Proof.
  assert (Forall is_ascii (ustr "fox")) as Hascii by by_compute.
  split; [exact Hascii|].
  exact (proj2 (proj2 (adjust_length_ja_en_correct UCD.normalize_NFKC
    UCD.east_asian_width UCD_NFKC_ascii UCD_east_asian_width_ascii))
    (ustr "fox") Hascii).
Defined.

(** C9 as amended, at the two ideographs of cat and dog. *)
Lemma adjust_length_ja_en_wide_witness :
  Forall (λ c, UCD.east_asian_width c = EA_W)
    (UCD.normalize_NFKC (Demo.neko ++ Demo.inu))
  ∧ Demo.adjust_length_ja_en (Demo.neko ++ Demo.inu) = 4.
Proof.
  assert (Forall (λ c, UCD.east_asian_width c = EA_W)
            (UCD.normalize_NFKC (Demo.neko ++ Demo.inu))) as Hwide by by_compute.
  split; [exact Hwide|].
  exact (proj1 (adjust_length_ja_en_wide UCD.normalize_NFKC UCD.east_asian_width)
    (Demo.neko ++ Demo.inu) Hwide).
Defined.

(** C9 as stated fails at U+33A0: the character is Wide, NFKC turns it into
    "cm2", and the width is 3, not 2. *)
Lemma wide_square_cm2_width :
  Forall (λ c, UCD.east_asian_width c = EA_W) Demo.square_cm2
  ∧ UCD.normalize_NFKC Demo.square_cm2 = ustr "cm2"
  ∧ Demo.adjust_length_ja_en Demo.square_cm2 = 3
  ∧ Demo.adjust_length_ja_en Demo.square_cm2 ≠ 2 * length Demo.square_cm2.
Proof.
  split; [by_compute|]. split; [reflexivity|]. split; [reflexivity|].
  vm_compute. lia.
Qed.

(** C1 as amended, inline and coloured, at the ideograph of cat over "NN"
    followed by "The" over "DT": the column of the ASCII token is aligned
    although the sequence holds a Wide token. *)
Lemma inline_mode_aligned_witness :
  Forall is_ascii (ustr "The")
  ∧ Demo.adjust_length_ja_en
      (ljust (ustr "The") (column_width (Demo.config false true) (ustr "The") (ustr "DT")))
    = column_width (Demo.config false true) (ustr "The") (ustr "DT")
  ∧ Demo.adjust_length_ja_en
      (ustr "DT" ++ tag_padding (Demo.config false true) (ustr "The") (ustr "DT"))
    = column_width (Demo.config false true) (ustr "The") (ustr "DT")
  ∧ Demo.adjust_length_ja_en
      (ustr "NN" ++ tag_padding (Demo.config false true) Demo.neko (ustr "NN"))
    = column_width (Demo.config false true) Demo.neko (ustr "NN").
Proof.
  assert (Forall is_ascii (ustr "The")) as Hascii by by_compute.
  split; [exact Hascii|].
  pose proof (proj2 (inline_mode_aligned UCD.normalize_NFKC UCD.east_asian_width
    Termcolor.COLORS Termcolor.colored Env.set_iter Env_set_iter_NoDup
    Env_set_iter_elem UCD_NFKC_ascii UCD_east_asian_width_ascii
    UCD_NFKC_app_spaces (Demo.config false true)
    [(Demo.neko, ustr "NN"); (ustr "The", ustr "DT")] eq_refl
    ltac:(intros _; vm_compute; lia))) as Hall.
  apply Forall_cons in Hall as [(_ & Hcat & _) Hall].
  apply Forall_cons in Hall as [(_ & Htag & Htoken) _].
  split; [exact (Htoken (or_introl Hascii))|]. split; [exact Htag|exact Hcat].
Defined.

(** C1 as stated fails at a Wide token: the ideograph of cat above the tag
    "NN" is padded by character count to two characters, which take three
    columns, over a tag of two. *)
Lemma wide_token_misaligned :
  Demo.format_token_tag_pairs (Demo.config false false) [(Demo.neko, ustr "NN")]
  = Ok [ [space] ++ Demo.neko ++ [space];
         [space; underline_glyph; underline_glyph];
         ustr " NN" ]
  ∧ Demo.adjust_length_ja_en (Demo.neko ++ [space]) = 3
  ∧ Demo.adjust_length_ja_en (ustr "NN") = 2
  ∧ Demo.adjust_length_ja_en (Demo.neko ++ [space])
    ≠ Demo.adjust_length_ja_en (ustr "NN").
Proof.
  split; [reflexivity|]. split; [reflexivity|]. split; [reflexivity|].
  vm_compute. lia.
Qed.

(** C3 at "The"/"DT" and "fox"/noun, inline and coloured: "DT" gets one
    trailing space behind its colour wrapping, "fox" one behind itself. *)
Lemma inline_mode_columns_witness :
  is_list (Demo.config false true) = false
  ∧ Demo.format_token_tag_pairs (Demo.config false true) Demo.the_fox
    = Ok [ ustr " The fox ";
           [space] ++ Termcolor.colored (replicate 3 underline_glyph) (ustr "black")
           ++ [space] ++ Termcolor.colored (replicate 4 underline_glyph) (ustr "grey");
           [space] ++ Termcolor.colored (ustr "DT") (ustr "black") ++ [space]
           ++ [space] ++ Termcolor.colored Demo.meishi (ustr "grey") ].
Proof.
  split; [reflexivity|].
  refine (inline_mode_columns UCD.normalize_NFKC UCD.east_asian_width
    Termcolor.COLORS Termcolor.colored Env.set_iter Env_set_iter_NoDup
    Env_set_iter_elem (Demo.config false true) Demo.the_fox eq_refl _).
  intros _. vm_compute. lia.
Defined.

(** C4 as amended, at "The"/"DT" and "fox"/noun, list mode without colour. *)
Lemma list_mode_bullets_witness :
  is_list (Demo.config true false) = true
  ∧ ∃ tokens under_line entries,
      Demo.format_token_tag_pairs (Demo.config true false) Demo.the_fox
      = Ok [tokens; under_line; bullet_list entries]
      ∧ NoDup entries
      ∧ Sorted (λ a b, length a ≤ length b) entries
      ∧ ∀ entry, entry ∈ entries ↔ entry ∈ Demo.the_fox.*2.
Proof.
  split; [reflexivity|].
  destruct (list_mode_bullets UCD.normalize_NFKC UCD.east_asian_width
    Termcolor.COLORS Termcolor.colored Env.set_iter Env_set_iter_NoDup
    Env_set_iter_elem (Demo.config true false) Demo.the_fox eq_refl)
    as (tokens & under_line & entries & Hout & Hnd & _ & Hsorted & Hplain).
  { intros Hc. discriminate Hc. }
  exists tokens, under_line, entries.
  split; [exact Hout|]. split; [exact Hnd|]. split; [exact Hsorted|].
  exact (Hplain eq_refl).
Defined.

(** C4 as stated fails with colour enabled: for the one tag "NN" the single
    entry of the list is the tag inside its colour wrapping, not "NN". *)
Lemma coloured_list_mode_entries :
  Demo.format_token_tag_pairs (Demo.config true true) [(ustr "a", ustr "NN")]
  = Ok [ ustr " a";
         [space] ++ Termcolor.colored [underline_glyph] (ustr "black");
         ustr "- " ++ [ESC] ++ ustr "[30mNN" ++ [ESC] ++ ustr "[0m" ]
  ∧ ¬ (∃ tokens under_line,
         Demo.format_token_tag_pairs (Demo.config true true) [(ustr "a", ustr "NN")]
         = Ok [tokens; under_line; bullet_list [ustr "NN"]]).
Proof.
  split; [reflexivity|]. intros (tokens & under_line & Hout).
  vm_compute in Hout. discriminate Hout.
Qed.

(** C5 at the tags "DT" and "NN" with the dark colours excluded. *)
Lemma generate_color_tag_injective_witness :
  NoDup [ustr "DT"; ustr "NN"]
  ∧ length [ustr "DT"; ustr "NN"]
    ≤ length (available_colors Termcolor.COLORS Demo.dark_colors)
  ∧ ∃ color,
      Demo.generate_color_tag [ustr "DT"; ustr "NN"] Demo.dark_colors !! ustr "NN"
      = Some color
      ∧ color ∈ Termcolor.COLORS.*1 ∧ (color ∉ Demo.dark_colors).
Proof.
  assert (NoDup [ustr "DT"; ustr "NN"]) as Hnd by by_compute.
  assert (length [ustr "DT"; ustr "NN"]
          ≤ length (available_colors Termcolor.COLORS Demo.dark_colors)) as Hle
    by (vm_compute; lia).
  split; [exact Hnd|]. split; [exact Hle|].
  apply (proj1 (generate_color_tag_injective Termcolor.COLORS
    Termcolor_COLORS_keys_NoDup [ustr "DT"; ustr "NN"] Demo.dark_colors Hnd Hle)).
  by_compute.
Defined.

(** C6 with "red" the only colour left: of the two tags of "The fox" the
    second has no colour, and the coloured composer raises [KeyError]. *)
Lemma palette_exhaustion_witness :
  length (available_colors Termcolor.COLORS Demo.all_but_red)
  < length (Env.set_iter Demo.the_fox.*2)
  ∧ (∃ tag, tag ∈ Env.set_iter Demo.the_fox.*2
       ∧ Demo.generate_color_tag (Env.set_iter Demo.the_fox.*2) Demo.all_but_red !! tag
         = None)
  ∧ ∃ key,
      Demo.format_token_tag_pairs (Demo.config_without false true Demo.all_but_red)
        Demo.the_fox
      = Raise (KeyError key)
      ∧ key ∈ Demo.the_fox.*2.
Proof.
  assert (length (available_colors Termcolor.COLORS Demo.all_but_red)
          < length (Env.set_iter Demo.the_fox.*2)) as Hlt by (vm_compute; lia).
  split; [exact Hlt|].
  destruct (palette_exhaustion UCD.normalize_NFKC UCD.east_asian_width
    Termcolor.COLORS Termcolor.colored Env.set_iter Termcolor_COLORS_keys_NoDup
    Env_set_iter_NoDup Env_set_iter_elem) as [Halloc Hraise].
  split.
  - exact (proj1 (proj2 (proj2 (Halloc (Env.set_iter Demo.the_fox.*2)
      Demo.all_but_red (Env_set_iter_NoDup _) Hlt)))).
  - destruct (Hraise (Demo.config_without false true Demo.all_but_red) Demo.the_fox
      eq_refl (or_intror Hlt)) as (key & Hkey & Hin & _).
    exists key. split; [exact Hkey|exact Hin].
Defined.

(** C7 as amended: the client of googletrans is built, and so is the DeepL
    client for a key that is not empty. *)
Lemma translate_without_language_code_witness :
  Demo.translate (Demo.config false false) (ustr "hello") tt = (Ok (ustr "hello"), tt)
  ∧ Demo.translate_DeepL {| base := Demo.config false false; api_key := ustr "key:fx" |}
      (ustr "hello") tt
    = (Ok (ustr "hello"), tt).
Proof.
  destruct (translate_without_language_code Env.World Env.google_translator
    Env.googletrans_Translator Env.googletrans_translate Env.deepl_translator
    Env.deepl_Translator Env.deepl_translate_text Env.langdetect_detect)
    as [Hbase Hdeepl].
  split.
  - exact (Hbase (Demo.config false false) (ustr "hello") tt tt tt eq_refl eq_refl).
  - exact (Hdeepl {| base := Demo.config false false; api_key := ustr "key:fx" |}
      (ustr "hello") tt (ustr "key:fx") tt eq_refl eq_refl).
Defined.

(** C7 as stated fails for the DeepL variant with an empty key: the client
    is built before [language_code] is looked at, and [deepl.Translator]
    raises [ValueError] on an empty key. *)
Lemma translate_DeepL_empty_key :
  language_code (base {| base := Demo.config false false; api_key := [] |}) = None
  ∧ Demo.translate_DeepL {| base := Demo.config false false; api_key := [] |}
      (ustr "hello") tt
    = (Raise (ValueError "auth_key must not be empty"), tt)
  ∧ Demo.translate_DeepL {| base := Demo.config false false; api_key := [] |}
      (ustr "hello") tt
    ≠ (Ok (ustr "hello"), tt).
Proof. split; [reflexivity|]. split; [reflexivity|]. discriminate. Qed.

(** C8 in the concrete process, list mode with colour. *)
Lemma empty_input_witness :
  Demo.format (Demo.config true true) [] tt = (Ok [], tt)
  ∧ Demo.format_DeepL {| base := Demo.config true true; api_key := [] |} [] tt
    = (Ok [], tt)
  ∧ Demo.format_token_tag_pairs (Demo.config true true) [] = Ok [[]; []; []].
Proof.
  exact (empty_input UCD.normalize_NFKC UCD.east_asian_width Termcolor.COLORS
    Termcolor.colored Env.set_iter Env_set_iter_elem Env.World
    Env.os_get_terminal_size Env.google_translator Env.googletrans_Translator
    Env.googletrans_translate Env.deepl_translator Env.deepl_Translator
    Env.deepl_translate_text Env.langdetect_detect (Demo.config true true)
    {| base := Demo.config true true; api_key := [] |} tt).
Defined.

(** C10 as amended, at "The"/"DT" and "fox"/noun, with nothing and with the
    dark colours excluded. *)
Lemma uncoloured_output_witness :
  Forall (λ p, (ESC ∉ p.1) ∧ (ESC ∉ p.2)) Demo.the_fox
  ∧ ∃ lines,
      Demo.format_token_tag_pairs (Demo.config false false) Demo.the_fox = Ok lines
      ∧ Demo.format_token_tag_pairs (Demo.config_without false false Demo.dark_colors)
          Demo.the_fox = Ok lines
      ∧ Forall (λ line, contains_ansi_escape line = false) lines.
Proof.
  assert (Forall (λ p, (ESC ∉ p.1) ∧ (ESC ∉ p.2)) Demo.the_fox) as Hclean
    by (repeat constructor; by_compute).
  split; [exact Hclean|].
  destruct (uncoloured_output UCD.normalize_NFKC UCD.east_asian_width
    Termcolor.COLORS Termcolor.colored Env.set_iter Env_set_iter_NoDup
    Env_set_iter_elem (Demo.config false false)
    (Demo.config_without false false Demo.dark_colors) Demo.the_fox
    eq_refl eq_refl eq_refl) as (lines & H1 & H2 & Hfree).
  exists lines. split; [exact H1|]. split; [exact H2|].
  eapply Forall_impl; [exact (Hfree Hclean)|]. intros line Hline. exact (proj2 Hline).
Defined.

(** C10 as stated fails when the input itself holds an escape sequence: the
    token is copied into the token line. *)
Lemma escape_token_reaches_output :
  color_enabled (Demo.config false false) = false
  ∧ Demo.format_token_tag_pairs (Demo.config false false)
      [(Demo.escape_token, ustr "NN")]
    = Ok [ [space] ++ Demo.escape_token;
           [space] ++ replicate 5 underline_glyph;
           ustr " NN   " ]
  ∧ contains_ansi_escape ([space] ++ Demo.escape_token) = true.
Proof. split; [reflexivity|]. split; reflexivity. Qed.

End Examples.

(** * Further properties of the formatter *)

Lemma for_each_result_app {S X} (body : S → X → result S) (st : S) (l1 l2 : list X) :
  for_each body st (l1 ++ l2) = st' ← for_each body st l1; for_each body st' l2.
Proof.
  revert st. induction l1 as [|x l1 IH]; intros st; [done|].
  cbn [app for_each]. destruct (body st x) as [st1|e]; [|done].
  rewrite !bind_Ok. apply IH.
Qed.

Lemma three_lines (a b c a' b' c' : list N) :
  a = a' → b = b' → c = c' → Ok [a; b; c] = Ok [a'; b'; c'].
Proof. by intros -> -> ->. Qed.

Lemma line_of_app cell (pairs1 pairs2 : list (list N * list N)) :
  line_of cell (pairs1 ++ pairs2) = line_of cell pairs1 ++ line_of cell pairs2.
Proof. unfold line_of. by rewrite fmap_app, concat_app. Qed.

Lemma length_line_of cell (pairs : list (list N * list N)) :
  length (line_of cell pairs) = sum_list ((λ p, S (length (cell p.1 p.2))) <$> pairs).
Proof.
  induction pairs as [|p pairs IH]; [done|].
  rewrite line_of_cons, fmap_cons, sum_list_cons. cbn [length].
  by rewrite length_app, IH.
Qed.

Lemma zip_insert_is_Some (tags colors : list (list N)) (m0 : gmap (list N) (list N)) t :
  is_Some (foldl (λ result '(tag, color), <[tag := color]> result) m0 (zip tags colors) !! t)
  ↔ t ∈ take (length colors) tags ∨ is_Some (m0 !! t).
Proof.
  revert colors m0. induction tags as [|t0 tags IH]; intros colors m0.
  - rewrite take_nil, elem_of_nil. cbn. tauto.
  - destruct colors as [|c0 colors].
    + cbn. rewrite elem_of_nil. tauto.
    + cbn [zip zip_with foldl length take]. rewrite IH, elem_of_cons.
      destruct (decide (t0 = t)) as [->|Hne].
      * rewrite lookup_insert_eq. split; [by intros; left; left|by intros; right].
      * rewrite lookup_insert_ne by done.
        split; [intros [?|?]; auto|intros [[?|?]|?]; auto; congruence].
Qed.

Lemma zip_insert_lookup_last (tags colors : list (list N))
    (m0 : gmap (list N) (list N)) i t c :
  tags !! i = Some t → colors !! i = Some c →
  (∀ j, i < j → j < length colors → tags !! j ≠ Some t) →
  foldl (λ result '(tag, color), <[tag := color]> result) m0 (zip tags colors) !! t
  = Some c.
Proof.
  revert colors m0 i. induction tags as [|t0 tags IH]; intros colors m0 i Ht Hc Hlast;
    [done|].
  destruct colors as [|c0 colors]; [done|]. cbn [zip zip_with foldl].
  destruct i as [|i]; simpl in Ht, Hc.
  - injection Ht as ->. injection Hc as ->.
    rewrite zip_insert_lookup_other; [apply lookup_insert_eq|].
    intros j Hj. destruct (decide (j < length colors)) as [Hlt|]; [|lia].
    exfalso. apply (Hlast (S j)); [lia|simpl; lia|done].
  - apply (IH _ _ i); [done..|].
    intros j Hij Hj. apply (Hlast (S j)); [lia|simpl; lia].
Qed.

Section Further.

Variable normalize_NFKC : list N → list N.
Variable east_asian_width : N → eaw.
Variable COLORS : list (list N * N).
Variable colored : list N → list N → list N.
Variable set_iter : list (list N) → list (list N).

Local Abbreviation adjust_length_ja_en :=
  (adjust_length_ja_en normalize_NFKC east_asian_width).
Local Abbreviation char_width := (char_width east_asian_width).
Local Abbreviation available_colors := (available_colors COLORS).
Local Abbreviation generate_color_tag := (generate_color_tag COLORS).
Local Abbreviation loop_body :=
  (loop_body normalize_NFKC east_asian_width colored).
Local Abbreviation format_token_tag_pairs :=
  (format_token_tag_pairs normalize_NFKC east_asian_width COLORS colored set_iter).
Local Abbreviation shown_tag := (shown_tag colored).
Local Abbreviation column_width := (column_width normalize_NFKC east_asian_width).
Local Abbreviation token_cell := (token_cell normalize_NFKC east_asian_width).
Local Abbreviation tag_padding := (tag_padding normalize_NFKC east_asian_width).
Local Abbreviation tag_cell := (tag_cell normalize_NFKC east_asian_width colored).
Local Abbreviation underline_cell :=
  (underline_cell normalize_NFKC east_asian_width colored).

(** ** Width calculator *)

Lemma sum_char_width_count (l : list N) :
  sum_list (char_width <$> l)
  = length l + length (filter (λ c, east_asian_width c = EA_W) l).
Proof.
  induction l as [|c l IH]; [done|].
  rewrite fmap_cons, sum_list_cons, IH, filter_cons. unfold char_width.
  case_decide; cbn [length]; lia.
Qed.

(** X1. The width of a string is the number of characters of its
    NFKC-normalised form plus the number of Wide characters among them; it
    therefore lies between that character count and twice it. *)
Theorem adjust_length_ja_en_bounds s :
  adjust_length_ja_en s
  = length (normalize_NFKC s)
    + length (filter (λ c, east_asian_width c = EA_W) (normalize_NFKC s))
  ∧ length (normalize_NFKC s) ≤ adjust_length_ja_en s
  ∧ adjust_length_ja_en s ≤ 2 * length (normalize_NFKC s).
Proof.
  rewrite adjust_length_ja_en_sum. unfold display_width_spec.
  rewrite sum_char_width_count.
  pose proof (length_filter (λ c, east_asian_width c = EA_W) (normalize_NFKC s)).
  lia.
Qed.

(** ** Colour allocator *)

Lemma available_colors_ext remove1 remove2 :
  (∀ color, color ∈ COLORS.*1 → color ∈ remove1 ↔ color ∈ remove2) →
  available_colors remove1 = available_colors remove2.
Proof.
  unfold available_colors. generalize (COLORS.*1). intros names Hsame.
  induction names as [|name names IH]; [done|].
  rewrite !filter_cons, IH.
  - assert (name ∈ remove1 ↔ name ∈ remove2) as [H12 H21]
      by (apply Hsame, elem_of_cons; by left).
    destruct (decide (name ∉ remove1)) as [Hn1|Hn1],
      (decide (name ∉ remove2)) as [Hn2|Hn2]; try done.
    + destruct Hn2. intros Hin. by apply Hn1, H21.
    + destruct Hn1. intros Hin. by apply Hn2, H12.
  - intros color Hin. apply Hsame, elem_of_cons. by right.
Qed.

(** X2. The allocation depends on the exclusion list only through the
    palette names it holds: two lists that exclude the same palette names
    give the same mapping, so that order, repetitions and names that are
    no colour of the palette make no difference. *)
Theorem generate_color_tag_exclusion_set tags remove1 remove2 :
  (∀ color, color ∈ COLORS.*1 → color ∈ remove1 ↔ color ∈ remove2) →
  generate_color_tag tags remove1 = generate_color_tag tags remove2.
Proof.
  intros Hsame. unfold generate_color_tag. by rewrite (available_colors_ext _ _ Hsame).
Qed.

(** X3. For any list of tags, repeated or not: the tags that get a
    colour are those among the first k of the list, k being the number of
    available colours; a tag gets the colour at the position of its last
    occurrence among those first k; and every colour handed out is a
    palette name outside the exclusion list. *)
Theorem generate_color_tag_any_tags tags remove :
  let color_tag := generate_color_tag tags remove in
  let k := length (available_colors remove) in
  (∀ tag, is_Some (color_tag !! tag) ↔ tag ∈ take k tags)
  ∧ (∀ i tag, tags !! i = Some tag → i < k →
       (∀ j, i < j → j < k → tags !! j ≠ Some tag) →
       color_tag !! tag = available_colors remove !! i)
  ∧ (∀ tag color, color_tag !! tag = Some color →
       color ∈ COLORS.*1 ∧ (color ∉ remove)).
Proof.
  intros color_tag k. split; [|split].
  - intros tag. unfold color_tag, generate_color_tag.
    rewrite zip_insert_is_Some, lookup_empty. split; [|by left].
    intros [?|[? ?]]; done.
  - intros i tag Htag Hlt Hlast.
    destruct (lookup_lt_is_Some_2 (available_colors remove) i Hlt) as [color Hcolor].
    rewrite Hcolor. by eapply zip_insert_lookup_last.
  - intros tag color Hm. apply generate_color_tag_inv in Hm as (i & _ & Hi).
    by apply list_elem_of_lookup_2, available_colors_elem in Hi as [? ?].
Qed.

(** ** Line composer *)

Hypothesis COLORS_keys_NoDup : NoDup COLORS.*1.
Hypothesis set_iter_NoDup : ∀ l, NoDup (set_iter l).
Hypothesis set_iter_elem : ∀ l x, x ∈ set_iter l ↔ x ∈ l.

(** Without colour the composer returns these lines. *)
Lemma format_token_tag_pairs_uncoloured self pairs :
  color_enabled self = false →
  format_token_tag_pairs self pairs
  = Ok [ line_of (λ token tag, ljust token (column_width self token tag)) pairs;
         line_of (λ token tag,
                    repeat_char underline_glyph (column_width self token tag)) pairs;
         if is_list self
         then bullet_list (sorted_by_len (set_iter pairs.*2))
         else line_of (λ token tag, tag ++ tag_padding self token tag) pairs ].
Proof.
  intros Hc.
  rewrite (format_token_tag_pairs_ok _ _ _ _ _ set_iter_NoDup set_iter_elem)
    by (intros Hc'; congruence).
  cbv zeta. apply three_lines; [done| |].
  - apply line_of_ext. intros token tag. unfold underline_cell. by rewrite Hc.
  - destruct (is_list self).
    + by rewrite shown_tags_uncoloured.
    + apply line_of_ext. intros token tag. unfold tag_cell.
      by rewrite shown_tag_uncoloured.
Qed.

Lemma length_ljust_column self token tag :
  length (ljust token (column_width self token tag)) = column_width self token tag.
Proof.
  unfold ljust, repeat_char, column_width. rewrite length_app, length_replicate.
  destruct (is_list self); lia.
Qed.

(** X4. Without colour the token line and the line of underline marks
    have the same number of characters, in both modes: under every token
    there are as many marks as the padded token has characters. *)
Theorem uncoloured_underline_length self pairs :
  color_enabled self = false →
  ∃ tokens under_line part_of_speech_line,
    format_token_tag_pairs self pairs = Ok [tokens; under_line; part_of_speech_line]
    ∧ length tokens = length under_line
    ∧ length tokens = sum_list ((λ p, S (column_width self p.1 p.2)) <$> pairs).
Proof.
  intros Hc. do 3 eexists. split; [by apply format_token_tag_pairs_uncoloured|].
  rewrite !length_line_of. split.
  - f_equal. apply list_fmap_ext. intros _ p _. cbn beta.
    rewrite length_ljust_column. unfold repeat_char. by rewrite length_replicate.
  - f_equal. apply list_fmap_ext. intros _ p _. cbn beta.
    by rewrite length_ljust_column.
Qed.

(** X5. Without colour the composer distributes over concatenation of
    its input: the token line and the underline of two sequences put
    together are the lines of each put together, and so is the tag line in
    inline mode. *)
Theorem uncoloured_concatenation self pairs1 pairs2 tokens1 under1 tags1
    tokens2 under2 tags2 :
  color_enabled self = false →
  format_token_tag_pairs self pairs1 = Ok [tokens1; under1; tags1] →
  format_token_tag_pairs self pairs2 = Ok [tokens2; under2; tags2] →
  ∃ tags,
    format_token_tag_pairs self (pairs1 ++ pairs2)
    = Ok [tokens1 ++ tokens2; under1 ++ under2; tags]
    ∧ (is_list self = false → tags = tags1 ++ tags2).
Proof.
  intros Hc H1 H2.
  rewrite format_token_tag_pairs_uncoloured in H1, H2 by done.
  injection H1 as <- <- <-. injection H2 as <- <- <-.
  eexists. split.
  - rewrite format_token_tag_pairs_uncoloured by done. by rewrite !line_of_app.
  - intros Hinline. by rewrite Hinline.
Qed.

(** X6. With colour enabled and enough colours, there is one colour per
    tag: the marks under a token carry the colour of its tag, two columns
    carry the same colour exactly when their tags are equal, and no colour
    in use is excluded. *)
Theorem coloured_columns self pairs :
  color_enabled self = true →
  length (set_iter pairs.*2) ≤ length (available_colors (colors_to_remove self)) →
  ∃ colour : list N → list N,
    format_token_tag_pairs self pairs
    = Ok [ line_of (λ token tag, ljust token (column_width self token tag)) pairs;
           line_of (λ token tag,
                      colored (repeat_char underline_glyph (column_width self token tag))
                        (colour tag)) pairs;
           if is_list self
           then bullet_list (sorted_by_len
                  (set_iter ((λ tag, colored tag (colour tag)) <$> pairs.*2)))
           else line_of (λ token tag,
                           colored tag (colour tag) ++ tag_padding self token tag) pairs ]
    ∧ (∀ p q, p ∈ pairs → q ∈ pairs → colour p.2 = colour q.2 ↔ p.2 = q.2)
    ∧ (∀ p, p ∈ pairs → colour p.2 ∈ COLORS.*1 ∧ (colour p.2 ∉ colors_to_remove self)).
Proof.
  intros Hc Hfit.
  set (color_tag := generate_color_tag (set_iter pairs.*2) (colors_to_remove self)).
  assert (∀ p, p ∈ pairs → color_tag !! p.2 = Some (color_of color_tag p.2)) as Hsome.
  { intros p Hp.
    pose proof (tags_have_colors COLORS set_iter set_iter_NoDup set_iter_elem
                  (colors_to_remove self) pairs Hfit) as Hall.
    rewrite Forall_forall in Hall. destruct (Hall p Hp) as [c Hcol].
    unfold color_of. fold color_tag in Hcol. by rewrite Hcol. }
  exists (color_of color_tag). split; [|split].
  - rewrite (format_token_tag_pairs_ok _ _ _ _ _ set_iter_NoDup set_iter_elem)
      by done.
    cbv zeta. fold color_tag. apply three_lines; [done| |].
    + apply line_of_ext. intros token tag. unfold underline_cell. by rewrite Hc.
    + destruct (is_list self).
      * do 3 f_equal. apply list_fmap_ext. intros _ tag _. unfold shown_tag.
        by rewrite Hc.
      * apply line_of_ext. intros token tag. unfold tag_cell, shown_tag.
        by rewrite Hc.
  - intros p q Hp Hq. split; [|by intros ->].
    intros Hsame. pose proof (Hsome p Hp) as H1. pose proof (Hsome q Hq) as H2.
    rewrite Hsame in H1.
    apply generate_color_tag_inv in H1 as (i & Hi & Hci).
    apply generate_color_tag_inv in H2 as (j & Hj & Hcj).
    assert (i = j) as ->
      by (eapply (NoDup_lookup (available_colors (colors_to_remove self)));
          [by apply available_colors_NoDup|done..]).
    congruence.
  - intros p Hp. pose proof (Hsome p Hp) as H1.
    apply generate_color_tag_inv in H1 as (i & _ & Hci).
    by apply list_elem_of_lookup_2, available_colors_elem in Hci as [? ?].
Qed.

(** X7. With colour enabled the composer raises at the first pair, in the
    order of the input, whose tag has no colour, with that tag as the key
    of the [KeyError]. *)
Theorem first_tag_without_colour self before token key after :
  color_enabled self = true →
  let pairs := before ++ (token, key) :: after in
  let color_tag := generate_color_tag (set_iter pairs.*2) (colors_to_remove self) in
  Forall (λ p, is_Some (color_tag !! p.2)) before →
  color_tag !! key = None →
  format_token_tag_pairs self pairs = Raise (KeyError key).
Proof.
  intros Hc pairs color_tag Hbefore Hkey. unfold format_token_tag_pairs.
  fold color_tag. unfold pairs. rewrite for_each_result_app.
  destruct (for_each_loop_ok normalize_NFKC east_asian_width colored self color_tag
              before loop_init) as (st & Hst & _).
  { eapply Forall_impl; [exact Hbefore|]. by intros p Hp _. }
  rewrite Hst, bind_Ok. cbn [for_each].
  by rewrite loop_body_raise, !bind_Raise.
Qed.

(** ** Batch formatter *)

Variable World : Type.
Variable os_get_terminal_size : io World nat.
Variable google_translator : Type.
Variable googletrans_Translator : io World google_translator.
Variable googletrans_translate :
  google_translator → list N → list N → io World (list N).
Variable deepl_translator : Type.
Variable deepl_Translator : list N → io World deepl_translator.
Variable deepl_translate_text :
  deepl_translator → list N → list N → list N → io World (list N).
Variable langdetect_detect : list N → io World (list N).

Local Abbreviation translate :=
  (translate World google_translator googletrans_Translator googletrans_translate).
Local Abbreviation translate_DeepL :=
  (translate_DeepL World deepl_translator deepl_Translator deepl_translate_text
     langdetect_detect).
Local Abbreviation format_body :=
  (format_body normalize_NFKC east_asian_width COLORS colored set_iter World
     os_get_terminal_size).
Local Abbreviation format_with :=
  (format_with normalize_NFKC east_asian_width COLORS colored set_iter World
     os_get_terminal_size).
Local Abbreviation format :=
  (format normalize_NFKC east_asian_width COLORS colored set_iter World
     os_get_terminal_size google_translator googletrans_Translator
     googletrans_translate).
Local Abbreviation format_DeepL :=
  (format_DeepL normalize_NFKC east_asian_width COLORS colored set_iter World
     os_get_terminal_size deepl_translator deepl_Translator deepl_translate_text
     langdetect_detect).

(** One sentence adds one block to the blocks collected so far. *)
Lemma format_body_acc self_translate self acc text_data w :
  format_body self_translate self acc text_data w
  = match format_body self_translate self [] text_data w with
    | (Ok blocks, w') => (Ok (acc ++ blocks), w')
    | (Raise e, w') => (Raise e, w')
    end.
Proof.
  unfold format_body, mbind, io_bind, mret, io_ret, io_lift.
  destruct (format_token_tag_pairs self (token_tag_pairs text_data)) as [lines|e];
    [|done].
  destruct (is_translate self).
  - destruct (self_translate (text text_data) w) as [[translated|e] w1]; [|done].
    by destruct (os_get_terminal_size w1) as [[width|e] w2].
  - by destruct (os_get_terminal_size w) as [[width|e] w2].
Qed.

Lemma format_body_one self_translate self text_data w blocks w' :
  format_body self_translate self [] text_data w = (Ok blocks, w') →
  ∃ block, blocks = [block].
Proof.
  unfold format_body, mbind, io_bind, mret, io_ret, io_lift.
  destruct (format_token_tag_pairs self (token_tag_pairs text_data)) as [lines|e];
    [|done].
  destruct (is_translate self).
  - destruct (self_translate (text text_data) w) as [[translated|e] w1]; [|done].
    destruct (os_get_terminal_size w1) as [[width|e] w2]; [|done].
    intros [= <- <-]. by eexists.
  - destruct (os_get_terminal_size w) as [[width|e] w2]; [|done].
    intros [= <- <-]. by eexists.
Qed.

Lemma format_loop_acc self_translate self acc texts_data w :
  for_each (format_body self_translate self) acc texts_data w
  = match for_each (format_body self_translate self) [] texts_data w with
    | (Ok blocks, w') => (Ok (acc ++ blocks), w')
    | (Raise e, w') => (Raise e, w')
    end.
Proof.
  revert acc w. induction texts_data as [|text_data texts_data IH]; intros acc w.
  - cbn. by rewrite app_nil_r.
  - cbn [for_each]. unfold mbind, io_bind.
    rewrite (format_body_acc _ _ acc).
    destruct (format_body self_translate self [] text_data w) as [[blocks|e] w1];
      [|done].
    rewrite (IH (acc ++ blocks)), (IH blocks).
    destruct (for_each (format_body self_translate self) [] texts_data w1) as [[others|e] w2]; [|done].
    by rewrite (assoc_L (++)).
Qed.

Lemma format_loop_length self_translate self texts_data w blocks w' :
  for_each (format_body self_translate self) [] texts_data w = (Ok blocks, w') →
  length blocks = length texts_data.
Proof.
  revert w blocks. induction texts_data as [|text_data texts_data IH]; intros w blocks.
  - cbn. by intros [= <- <-].
  - cbn [for_each]. unfold mbind, io_bind.
    destruct (format_body self_translate self [] text_data w) as [[first|e] w1] eqn:Hb;
      [|done].
    apply format_body_one in Hb as [block ->]. rewrite format_loop_acc.
    destruct (for_each (format_body self_translate self) [] texts_data w1) as [[others|e] w2] eqn:Hrest; [|done].
    intros [= <- <-]. cbn [length app]. f_equal. by eapply IH.
Qed.

Lemma join_cons_nonempty sep x (l : list (list N)) :
  l ≠ [] → join sep (x :: l) = x ++ sep ++ join sep l.
Proof. by destruct l. Qed.

(** X8. The block of one sentence: the lines of the composer, then the
    translation behind an empty line when translation is on, then an
    empty line and the rule, as wide as the terminal is when asked, all
    joined by newlines; the terminal is asked after the translation. *)
Theorem format_one_sentence self_translate self text_data lines translated width
    w w1 w2 :
  format_token_tag_pairs self (token_tag_pairs text_data) = Ok lines →
  (if is_translate self
   then self_translate (text text_data) w = (Ok translated, w1)
   else w1 = w) →
  os_get_terminal_size w1 = (Ok width, w2) →
  format_with self_translate self [text_data] w
  = (Ok (join [newline]
           (lines
            ++ (if is_translate self then [newline :: translated] else [])
            ++ [[newline] ++ replicate width rule_glyph ++ [newline]])), w2).
Proof.
  intros Hlines Htranslate Hwidth.
  unfold format_with, for_each, format_body, mbind, io_bind, mret, io_ret, io_lift.
  rewrite Hlines. destruct (is_translate self).
  - rewrite Htranslate, Hwidth. cbn. by rewrite <- (assoc_L (++)).
  - subst w1. by rewrite Hwidth.
Qed.

(** X9. The blocks of the sentences follow one another with a single
    newline between them and none after the last: the output for a
    sentence followed by others is its block, a newline, and the output
    for the others, the world being handed from one to the next. *)
Theorem format_sentences_cons self_translate self text_data others block rest w w1 w2 :
  others ≠ [] →
  format_with self_translate self [text_data] w = (Ok block, w1) →
  format_with self_translate self others w1 = (Ok rest, w2) →
  format_with self_translate self (text_data :: others) w
  = (Ok (block ++ [newline] ++ rest), w2).
Proof.
  intros Hothers. unfold format_with. cbn [for_each].
  unfold mbind, io_bind, mret, io_ret.
  destruct (format_body self_translate self [] text_data w) as [[first|e] w1'] eqn:Hb;
    [|done].
  destruct (format_body_one _ _ _ _ _ _ Hb) as [b ->]. cbn [join].
  intros [= <- <-] Hothers'. rewrite format_loop_acc.
  destruct (for_each (format_body self_translate self) [] others w1')
    as [[blocks|e] w2'] eqn:Hrest; [|done].
  injection Hothers' as <- <-. cbn [app]. rewrite join_cons_nonempty; [done|].
  apply format_loop_length in Hrest. intros ->. destruct others; done.
Qed.

(** X10. The first failure ends [format]: a [KeyError] of the composer
    leaves the world untouched, a failing translation keeps the terminal
    from being asked, a failing terminal query ends the call, with
    translation off as well as after a translation that succeeded, and a
    failure in a later sentence discards the blocks already built. *)
Theorem format_first_failure self_translate self text_data others e w w1 :
  (format_token_tag_pairs self (token_tag_pairs text_data) = Raise e →
   format_with self_translate self (text_data :: others) w = (Raise e, w))
  ∧ (∀ lines, format_token_tag_pairs self (token_tag_pairs text_data) = Ok lines →
       is_translate self = true →
       self_translate (text text_data) w = (Raise e, w1) →
       format_with self_translate self (text_data :: others) w = (Raise e, w1))
  ∧ (∀ lines translated w0,
       format_token_tag_pairs self (token_tag_pairs text_data) = Ok lines →
       (if is_translate self
        then self_translate (text text_data) w = (Ok translated, w0)
        else w0 = w) →
       os_get_terminal_size w0 = (Raise e, w1) →
       format_with self_translate self (text_data :: others) w = (Raise e, w1))
  ∧ (∀ block w0, format_with self_translate self [text_data] w = (Ok block, w0) →
       format_with self_translate self others w0 = (Raise e, w1) →
       format_with self_translate self (text_data :: others) w = (Raise e, w1)).
Proof.
  split; [|split; [|split]].
  - intros Hraise. unfold format_with. cbn [for_each].
    unfold format_body, mbind, io_bind, io_lift. by rewrite Hraise.
  - intros lines Hlines Htr Hfail. unfold format_with. cbn [for_each].
    unfold format_body, mbind, io_bind, io_lift. by rewrite Hlines, Htr, Hfail.
  - intros lines translated w0 Hlines Htr Hfail. unfold format_with. cbn [for_each].
    unfold format_body, mbind, io_bind, io_lift, mret, io_ret.
    rewrite Hlines. destruct (is_translate self).
    + by rewrite Htr, Hfail.
    + subst w0. by rewrite Hfail.
  - intros block w0. unfold format_with. cbn [for_each].
    unfold mbind, io_bind, mret, io_ret.
    destruct (format_body self_translate self [] text_data w) as [[first|e'] w1'];
      [|done].
    intros [= <- <-] Hfail. rewrite format_loop_acc.
    destruct (for_each (format_body self_translate self) [] others w1')
      as [[blocks|e'] w2']; [done|]. by injection Hfail as <- <-.
Qed.

Lemma format_with_untranslated translate1 translate2 self texts_data w :
  is_translate self = false →
  format_with translate1 self texts_data w = format_with translate2 self texts_data w.
Proof.
  intros Hoff. unfold format_with, mbind, io_bind.
  assert (∀ acc w', for_each (format_body translate1 self) acc texts_data w'
                    = for_each (format_body translate2 self) acc texts_data w') as ->; [|done].
  induction texts_data as [|text_data texts_data IH]; intros acc w'; [done|].
  cbn [for_each]. unfold mbind, io_bind.
  assert (format_body translate1 self acc text_data w'
          = format_body translate2 self acc text_data w') as ->.
  { unfold format_body, mbind, io_bind. by rewrite Hoff. }
  destruct (format_body translate2 self acc text_data w') as [[blocks|e] w1]; [|done].
  apply IH.
Qed.

(** X11. With translation off, [format] never reaches a translation
    client: an object of the base class and one of the DeepL class with
    the same fields give the same result in the same world, whatever the
    API key. *)
Theorem format_without_translation self key texts_data w :
  is_translate self = false →
  format self texts_data w
  = format_DeepL {| base := self; api_key := key |} texts_data w.
Proof. intros Hoff. by apply format_with_untranslated. Qed.

(** X12. For one sentence, with translation on and no language code, the
    line that [format] adds for the translation is the text of the
    sentence itself, once the client of googletrans has been built. *)
Theorem format_untranslated_line self text_data lines translator width w w1 w2 :
  is_translate self = true →
  language_code self = None →
  format_token_tag_pairs self (token_tag_pairs text_data) = Ok lines →
  googletrans_Translator w = (Ok translator, w1) →
  os_get_terminal_size w1 = (Ok width, w2) →
  format self [text_data] w
  = (Ok (join [newline]
           (lines ++ [newline :: text text_data]
            ++ [[newline] ++ replicate width rule_glyph ++ [newline]])), w2).
Proof.
  intros Hon Hnone Hlines Hclient Hwidth.
  unfold format, format_with, for_each, format_body, translate, mbind, io_bind, mret,
    io_ret, io_lift.
  rewrite Hlines, Hon, Hclient, Hnone, Hwidth. cbn. by rewrite <- (assoc_L (++)).
Qed.

End Further.

(** * The analyzer *)

Lemma foldl_insert_lookup {V} (items : list (list N * V)) (d0 : gmap (list N) V) key value :
  NoDup items.*1 →
  foldl (λ d '(k, v), <[k := v]> d) d0 items !! key = Some value
  ↔ (key, value) ∈ items ∨ ((key ∉ items.*1) ∧ d0 !! key = Some value).
Proof.
  revert d0. induction items as [|[k v] items IH]; intros d0 Hnd.
  - cbn. rewrite elem_of_nil. split; [intros ?; right; split; [apply not_elem_of_nil|done]|].
    by intros [?|[_ ?]].
  - rewrite fmap_cons in Hnd. apply NoDup_cons in Hnd as [Hk Hnd]. cbn [foldl fst].
    rewrite (IH _ Hnd), fmap_cons, not_elem_of_cons, elem_of_cons. cbn [fst].
    destruct (decide (k = key)) as [->|Hne].
    + rewrite lookup_insert_eq. split.
      * intros [Hin|[_ [= ->]]]; [by left; right|by left; left].
      * intros [[[= ->]|Hin]|[[? _] _]]; [|exfalso|done].
        -- right. by split.
        -- apply Hk. apply list_elem_of_fmap. by exists (key, value).
    + rewrite lookup_insert_ne by done. split.
      * intros [Hin|[Hnot Hd]]; [by left; right|]. right. by split.
      * intros [[[= -> ->]|Hin]|[[_ Hnot] Hd]]; [done|by left|by right].
Qed.

(** A dict display without repeated keys holds exactly its items. *)
Lemma dict_of_items_lookup {V} (items : list (list N * V)) key value :
  NoDup items.*1 →
  dict_of_items items !! key = Some value ↔ (key, value) ∈ items.
Proof.
  intros Hnd. unfold dict_of_items. rewrite foldl_insert_lookup by done.
  rewrite lookup_empty. split; [by intros [?|[_ ?]]|by left].
Qed.

Lemma tag_table_keys_NoDup : NoDup tag_table.*1.
Proof. by_compute. Qed.

Lemma tag_table_None key :
  dict_of_items tag_table !! key = None ↔ key ∉ tag_table.*1.
Proof.
  split.
  - intros Hnone Hin. apply list_elem_of_fmap in Hin as ([k entry] & -> & Hin).
    apply (dict_of_items_lookup _ _ _ tag_table_keys_NoDup) in Hin.
    cbn [fst] in Hnone. congruence.
  - intros Hnot. destruct (dict_of_items tag_table !! key) as [entry|] eqn:Hk; [|done].
    apply (dict_of_items_lookup _ _ _ tag_table_keys_NoDup) in Hk.
    destruct Hnot. apply list_elem_of_fmap. by exists (key, entry).
Qed.

Lemma for_each_collect {X Y} (body : list Y → X → result (list Y))
    (step : X → Y → Prop) (l : list X) (ys acc : list Y) :
  (∀ acc x y, step x y → body acc x = Ok (acc ++ [y])) →
  Forall2 step l ys →
  for_each body acc l = Ok (acc ++ ys).
Proof.
  intros Hbody Hall. revert acc. induction Hall as [|x y l ys Hxy _ IH]; intros acc.
  - cbn. by rewrite app_nil_r.
  - cbn [for_each]. rewrite (Hbody _ _ _ Hxy), bind_Ok, IH.
    by rewrite <- (assoc_L (++)).
Qed.

Lemma mapM_result_cons {A B} (f : A → result B) x l :
  mapM f (x :: l) = y ← f x; k ← mapM f l; mret (y :: k).
Proof. reflexivity. Qed.

Section FurtherAnalyzer.

Variable sent_tokenize : list N → result (list (list N)).
Variable word_tokenize : list N → result (list (list N)).
Variable pos_tag : list (list N) → result (list (list N * list N)).

Local Abbreviation analyze_body := (analyze_body word_tokenize pos_tag).
Local Abbreviation analyze := (analyze sent_tokenize word_tokenize pos_tag).

(** A sentence and the pairs that the tagger gives for its tokens. *)
Local Abbreviation tagged_as := (λ sentence tagged,
  ∃ tokens, word_tokenize sentence = Ok tokens ∧ pos_tag tokens = Ok tagged).

(** A pair of the result beside the pair of the tagger: the same token,
    and the entry of the tag in the table, of the column that [index]
    selects. *)
Local Abbreviation relabelled := (λ (index : nat) (p q : list N * list N),
  p.1 = q.1
  ∧ ∃ expansion_text gloss, (q.2, (expansion_text, gloss)) ∈ tag_table
      ∧ p.2 = if decide (index = 0) then expansion_text else gloss).

Lemma expression_Ok index token tag :
  tag ∈ tag_table.*1 →
  ∃ p, expression index (token, tag) = Ok p ∧ relabelled index p (token, tag).
Proof.
  intros Hin. apply list_elem_of_fmap in Hin as ([k [e j]] & -> & Hin).
  pose proof Hin as Hk.
  apply (dict_of_items_lookup _ _ _ tag_table_keys_NoDup) in Hk.
  unfold expression. cbn [fst snd] in *. rewrite Hk. eexists. split; [done|].
  split; [done|]. by exists e, j.
Qed.

Lemma expression_Raise index token tag :
  (tag ∉ tag_table.*1) → expression index (token, tag) = Raise (KeyError tag).
Proof.
  intros Hnot. apply tag_table_None in Hnot. unfold expression. cbn [snd].
  by rewrite Hnot.
Qed.

Lemma mapM_expression_Ok index tagged :
  Forall (λ p, p.2 ∈ tag_table.*1) tagged →
  ∃ out, mapM (expression index) tagged = Ok out
    ∧ Forall2 (relabelled index) out tagged.
Proof.
  induction 1 as [|[token tag] tagged Htag _ (out & Hout & Hrel)].
  - exists []. by split.
  - destruct (expression_Ok index token tag Htag) as (p & Hp & Hpq).
    exists (p :: out). rewrite mapM_result_cons, Hp, bind_Ok, Hout, bind_Ok.
    split; [done|]. by constructor.
Qed.

Lemma mapM_expression_Raise index before token key after :
  Forall (λ p, p.2 ∈ tag_table.*1) before →
  (key ∉ tag_table.*1) →
  mapM (expression index) (before ++ (token, key) :: after) = Raise (KeyError key).
Proof.
  intros Hbefore Hkey. induction Hbefore as [|[token' tag] before Htag _ IH].
  - cbn [app]. by rewrite mapM_result_cons, expression_Raise, bind_Raise.
  - destruct (expression_Ok index token' tag Htag) as (p & Hp & _).
    cbn [app]. by rewrite mapM_result_cons, Hp, bind_Ok, IH, bind_Raise.
Qed.

Lemma analyze_body_relabel self acc sentence tokens tagged r :
  tag_type self ≠ abbreviation →
  word_tokenize sentence = Ok tokens →
  pos_tag tokens = Ok tagged →
  mapM (expression (if decide (tag_type self = expansion) then 0 else 1)) tagged = r →
  analyze_body self acc sentence
  = out ← r; Ok (acc ++ [{| text := sentence; token_tag_pairs := out |}]).
Proof.
  intros Hmode Htok Htag <-. unfold analyze_body, tokenize.
  by rewrite Htok, bind_Ok, Htag, bind_Ok, decide_False.
Qed.

(** X13. The tag table has no repeated code: looking a code up gives an
    entry exactly when the display lists the code with that entry, and
    raises [KeyError] for every other string. *)
Theorem tag_table_lookup key :
  (∀ entry, dict_of_items tag_table !! key = Some entry ↔ (key, entry) ∈ tag_table)
  ∧ (∀ index token,
       (key ∉ tag_table.*1) → expression index (token, key) = Raise (KeyError key)).
Proof.
  split.
  - intros entry. apply dict_of_items_lookup, tag_table_keys_NoDup.
  - intros index token. apply expression_Raise.
Qed.

(** X14. In abbreviation mode [analyze] returns one record per sentence
    of the splitter, in order, each with the sentence as text and exactly
    the pairs of the tagger; the tag table is not consulted. *)
Theorem analyze_abbreviation self texts sentences taggeds :
  tag_type self = abbreviation →
  sent_tokenize texts = Ok sentences →
  Forall2 tagged_as sentences taggeds →
  analyze self texts
  = Ok (zip_with (λ sentence tagged,
                    {| text := sentence; token_tag_pairs := tagged |})
          sentences taggeds).
Proof.
  intros Hmode Hsent Hall. unfold analyze. rewrite Hsent, bind_Ok.
  apply (for_each_collect (analyze_body self)
           (λ sentence r, ∃ tagged, tagged_as sentence tagged
              ∧ r = {| text := sentence; token_tag_pairs := tagged |})
           sentences
           (zip_with (λ sentence tagged,
                        {| text := sentence; token_tag_pairs := tagged |})
              sentences taggeds) []).
  - intros acc sentence r (tagged & (tokens & Htok & Htag) & ->).
    unfold analyze_body, tokenize. rewrite Htok, bind_Ok, Htag, bind_Ok.
    by rewrite decide_True.
  - clear Hsent. induction Hall as [|sentence tagged sentences taggeds H1 _ IH];
      [constructor|].
    cbn [zip_with]. constructor; [|done]. by exists tagged.
Qed.

(** X15. In expansion and in Japanese mode, when every tag of the tagger
    is a code of the table, [analyze] returns one record per sentence, in
    order, with the sentence as text, the tokens of the tagger unchanged,
    and each tag replaced by the English expansion, respectively the
    Japanese gloss, of its entry. *)
Theorem analyze_relabels self texts sentences taggeds :
  tag_type self ≠ abbreviation →
  sent_tokenize texts = Ok sentences →
  Forall2 tagged_as sentences taggeds →
  Forall (Forall (λ p, p.2 ∈ tag_table.*1)) taggeds →
  ∃ results,
    analyze self texts = Ok results
    ∧ text <$> results = sentences
    ∧ Forall2 (λ r tagged,
         Forall2 (λ p q,
            p.1 = q.1
            ∧ ∃ expansion_text gloss, (q.2, (expansion_text, gloss)) ∈ tag_table
                ∧ p.2 = if decide (tag_type self = expansion)
                        then expansion_text else gloss)
           (token_tag_pairs r) tagged) results taggeds.
Proof.
  intros Hmode Hsent Hall Hknown. unfold analyze. rewrite Hsent, bind_Ok. clear Hsent.
  set (index := if decide (tag_type self = expansion) then 0 else 1).
  assert (∀ acc, ∃ results,
            for_each (analyze_body self) acc sentences = Ok (acc ++ results)
            ∧ text <$> results = sentences
            ∧ Forall2 (λ r tagged,
                 Forall2 (relabelled index) (token_tag_pairs r) tagged)
                results taggeds) as Hloop.
  { induction Hall as [|sentence tagged sentences taggeds (tokens & Htok & Htag) _ IH];
      intros acc.
    - exists []. cbn. by rewrite app_nil_r.
    - apply Forall_cons in Hknown as [Hk Hknown].
      destruct (mapM_expression_Ok index tagged Hk) as (out & Hout & Hrel).
      destruct (IH Hknown (acc ++ [{| text := sentence; token_tag_pairs := out |}]))
        as (results & Hres & Htexts & Hpairs).
      exists ({| text := sentence; token_tag_pairs := out |} :: results).
      split; [|split].
      + cbn [for_each].
        rewrite (analyze_body_relabel _ _ _ _ _ _ Hmode Htok Htag Hout), !bind_Ok, Hres.
        by rewrite <- (assoc_L (++)).
      + rewrite fmap_cons. by f_equal.
      + by constructor. }
  destruct (Hloop []) as (results & Hres & Htexts & Hpairs).
  exists results. split; [done|]. split; [done|].
  eapply Forall2_impl; [exact Hpairs|]. intros r tagged Hr.
  eapply Forall2_impl; [exact Hr|]. intros p q [Htoken (e & j & Hin & Htagp)].
  split; [done|]. exists e, j. split; [done|]. rewrite Htagp. unfold index.
  by destruct (decide (tag_type self = expansion)).
Qed.

(** X16. In expansion and in Japanese mode [analyze] raises [KeyError]
    at the first tag, in the order of sentences and tokens, that is no
    code of the table, with that tag as key; no record is returned for the
    sentences before it. *)
Theorem analyze_unknown_tag self texts before taggeds sentence after tokens
    tagged_before token key tagged_after :
  tag_type self ≠ abbreviation →
  sent_tokenize texts = Ok (before ++ sentence :: after) →
  Forall2 tagged_as before taggeds →
  Forall (Forall (λ p, p.2 ∈ tag_table.*1)) taggeds →
  word_tokenize sentence = Ok tokens →
  pos_tag tokens = Ok (tagged_before ++ (token, key) :: tagged_after) →
  Forall (λ p, p.2 ∈ tag_table.*1) tagged_before →
  (key ∉ tag_table.*1) →
  analyze self texts = Raise (KeyError key).
Proof.
  intros Hmode Hsent Hall Hknown Htok Htag Hbefore Hkey.
  unfold analyze. rewrite Hsent, bind_Ok, for_each_result_app.
  set (index := if decide (tag_type self = expansion) then 0 else 1).
  assert (∀ acc, ∃ results,
            for_each (analyze_body self) acc before = Ok (acc ++ results)) as Hloop.
  { clear Hsent. induction Hall as [|s tagged ss ts (toks & Htok' & Htag') _ IH];
      intros acc.
    - exists []. cbn. by rewrite app_nil_r.
    - apply Forall_cons in Hknown as [Hk Hknown].
      destruct (mapM_expression_Ok index tagged Hk) as (out & Hout & _).
      destruct (IH Hknown (acc ++ [{| text := s; token_tag_pairs := out |}]))
        as (results & Hres).
      exists ({| text := s; token_tag_pairs := out |} :: results).
      cbn [for_each].
      rewrite (analyze_body_relabel _ _ _ _ _ _ Hmode Htok' Htag' Hout), !bind_Ok, Hres.
      by rewrite <- (assoc_L (++)). }
  destruct (Hloop []) as (results & ->). rewrite bind_Ok. cbn [for_each].
  rewrite (analyze_body_relabel _ _ _ _ _ _ Hmode Htok Htag
             (mapM_expression_Raise _ _ _ _ _ Hbefore Hkey)).
  by rewrite !bind_Raise.
Qed.

End FurtherAnalyzer.

(** * The interactive loop *)

Lemma command_c_not_q : ustr "c" ≠ ustr "q".
Proof. intros H. vm_compute in H. discriminate H. Qed.

Lemma command_help_not_q : ustr "help" ≠ ustr "q".
Proof. intros H. vm_compute in H. discriminate H. Qed.

Lemma command_help_not_c : ustr "help" ≠ ustr "c".
Proof. intros H. vm_compute in H. discriminate H. Qed.

Section FurtherInteractive.

Variable World : Type.
Variable morphological_analyzer_analyze : list N → result (list TaggedTokens).
Variable texts_formatter_format : list TaggedTokens → io World (list N).
Variable os_name_is_nt : bool.

Local Abbreviation clear := (clear World os_name_is_nt).
Local Abbreviation while_running :=
  (while_running World morphological_analyzer_analyze texts_formatter_format
     os_name_is_nt).
Local Abbreviation run :=
  (run World morphological_analyzer_analyze texts_formatter_format os_name_is_nt).
Local Abbreviation command_events := (command_events os_name_is_nt).
Local Abbreviation opening_events := (opening_events os_name_is_nt).

(** One turn of the loop while the flag is set. *)
Lemma while_running_step unread (st : console World) :
  running st = true →
  while_running unread st
  = let st := emit (Prompt (ustr "> ")) st in
    match unread with
    | [] => Raised UncaughtEOF [] st
    | Interrupt :: unread => Left unread st
    | Line command :: unread =>
        if decide (command = ustr "q") then Left unread st
        else if decide (command = ustr "c") then while_running unread (clear st)
        else if decide (command = ustr "help")
             then while_running unread (help World st)
        else
          match morphological_analyzer_analyze command with
          | Raise e => Raised (Uncaught e) unread st
          | Ok analyzed_texts =>
              match texts_formatter_format analyzed_texts (world st) with
              | (Raise e, w) =>
                  Raised (Uncaught e) unread
                    {| running := running st; written := written st; world := w |}
              | (Ok formatted_texts, w) =>
                  while_running unread
                    (emit (Print formatted_texts)
                       {| running := running st; written := written st; world := w |})
              end
          end
    end.
Proof. intros Hrun. destruct unread; cbn [while_running]; by rewrite Hrun. Qed.

Lemma while_running_commands commands unread (st : console World) :
  running st = true →
  Forall is_command commands →
  while_running (commands ++ unread) st
  = while_running unread
      {| running := true;
         written := written st ++ (commands ≫= command_events);
         world := world st |}.
Proof.
  intros Hrun Hall. revert st Hrun.
  induction Hall as [|e commands He _ IH]; intros st Hrun.
  - cbn [app mbind list_bind]. rewrite app_nil_r. destruct st as [r wr wo].
    cbn in Hrun. by subst r.
  - cbn [app]. rewrite while_running_step by done. cbv zeta.
    destruct He as [->| ->].
    + rewrite decide_False by apply command_c_not_q. rewrite decide_True by done.
      rewrite IH.
      * f_equal. unfold clear, emit. destruct os_name_is_nt; cbn; f_equal;
          by rewrite <- !(assoc_L (++)).
      * unfold clear. by destruct os_name_is_nt.
    + rewrite decide_False by apply command_help_not_q.
      rewrite decide_False by apply command_help_not_c. rewrite decide_True by done.
      rewrite IH; [|done].
      f_equal. unfold help, emit. cbn. f_equal. by rewrite <- !(assoc_L (++)).
Qed.

Lemma run_unfold stdin (st : console World) :
  run stdin st
  = match while_running stdin
            {| running := true; written := written st ++ opening_events;
               world := world st |} with
    | Left unread st' => (Returned, unread, stop World st')
    | Raised o unread st' => (o, unread, st')
    end.
Proof.
  unfold run, start, clear, emit, opening_events.
  destruct os_name_is_nt; cbn; by rewrite <- !(assoc_L (++)).
Qed.

(** X17. After any number of "c" and "help" lines, "q" or an interrupt
    at the prompt makes [run] return: it has written the opening, what the
    commands write, a last prompt and the closing message; it has called
    neither the analyzer nor the formatter, the world is as it was; the
    flag is cleared and the input behind the quitting line is unread. *)
Theorem run_commands_then_quit commands quit rest (st : console World) :
  Forall is_command commands →
  quit = Line (ustr "q") ∨ quit = Interrupt →
  run (commands ++ quit :: rest) st
  = (Returned, rest,
     {| running := false;
        written := written st ++ opening_events ++ (commands ≫= command_events)
                   ++ [Prompt (ustr "> "); closing_event];
        world := world st |}).
Proof.
  intros Hcommands Hquit. rewrite run_unfold, while_running_commands by done.
  rewrite while_running_step by done. cbv zeta.
  destruct Hquit as [-> | ->].
  - rewrite decide_True by done. unfold stop, emit, closing_event. cbn.
    do 2 f_equal. by rewrite <- !(assoc_L (++)).
  - unfold stop, emit, closing_event. cbn. do 2 f_equal.
    by rewrite <- !(assoc_L (++)).
Qed.

(** X18. When the input ends behind "c" and "help" lines only, [run] is
    left by [EOFError], which it does not catch: the closing message is
    not written and the flag stays set. *)
Theorem run_end_of_input commands (st : console World) :
  Forall is_command commands →
  run commands st
  = (UncaughtEOF, [],
     {| running := true;
        written := written st ++ opening_events ++ (commands ≫= command_events)
                   ++ [Prompt (ustr "> ")];
        world := world st |}).
Proof.
  intros Hcommands. rewrite run_unfold.
  rewrite <- (app_nil_r commands) at 1. rewrite while_running_commands by done.
  rewrite while_running_step by done. cbv zeta. unfold emit. cbn.
  do 2 f_equal. by rewrite <- !(assoc_L (++)).
Qed.

(** The lines that the loop hands to the analyzer. *)
Local Abbreviation is_text := (λ command : list N,
  command ≠ ustr "q" ∧ command ≠ ustr "c" ∧ command ≠ ustr "help").

(** X19. After any number of "c" and "help" lines, a line that is no
    command and that the analyzer or the formatter fails on ends [run]
    with that exception: nothing is written
    for the line but the prompt, the closing message is not written, the
    flag stays set, the lines behind it are unread; a failing analysis
    leaves the world as it was, a failing formatter as it left it. *)
Theorem run_uncaught commands command rest e (st : console World) :
  Forall is_command commands →
  is_text command →
  (morphological_analyzer_analyze command = Raise e →
   run (commands ++ Line command :: rest) st
   = (Uncaught e, rest,
      {| running := true;
         written := written st ++ opening_events ++ (commands ≫= command_events)
                    ++ [Prompt (ustr "> ")];
         world := world st |}))
  ∧ (∀ analyzed_texts w,
       morphological_analyzer_analyze command = Ok analyzed_texts →
       texts_formatter_format analyzed_texts (world st) = (Raise e, w) →
       run (commands ++ Line command :: rest) st
       = (Uncaught e, rest,
          {| running := true;
             written := written st ++ opening_events ++ (commands ≫= command_events)
                        ++ [Prompt (ustr "> ")];
             world := w |})).
Proof.
  intros Hcommands (Hq & Hc & Hh). split.
  - intros Hfail. rewrite run_unfold, while_running_commands by done.
    rewrite while_running_step by done. cbv zeta.
    rewrite !decide_False by done. rewrite Hfail. unfold emit. cbn.
    do 2 f_equal. by rewrite <- !(assoc_L (++)).
  - intros analyzed_texts w Hok Hfail.
    rewrite run_unfold, while_running_commands by done.
    rewrite while_running_step by done. cbv zeta.
    rewrite !decide_False by done. rewrite Hok. cbn [emit world].
    rewrite Hfail. cbn. do 2 f_equal. by rewrite <- !(assoc_L (++)).
Qed.

Lemma run_answers_text command analyzed_texts formatted_texts w quit rest
    (st : console World) :
  is_text command →
  morphological_analyzer_analyze command = Ok analyzed_texts →
  texts_formatter_format analyzed_texts (world st) = (Ok formatted_texts, w) →
  quit = Line (ustr "q") ∨ quit = Interrupt →
  run (Line command :: quit :: rest) st
  = (Returned, rest,
     {| running := false;
        written := written st ++ opening_events
                   ++ [Prompt (ustr "> "); Print formatted_texts;
                       Prompt (ustr "> "); closing_event];
        world := w |}).
Proof.
  intros (Hq & Hc & Hh) Hok Hformat Hquit. rewrite run_unfold.
  rewrite while_running_step by done. cbv zeta.
  rewrite !decide_False by done. rewrite Hok. cbn [emit world]. rewrite Hformat.
  rewrite while_running_step by done. cbv zeta.
  destruct Hquit as [-> | ->].
  - rewrite decide_True by done. unfold stop, emit, closing_event. cbn.
    do 2 f_equal. by rewrite <- !(assoc_L (++)).
  - unfold stop, emit, closing_event. cbn. do 2 f_equal.
    by rewrite <- !(assoc_L (++)).
Qed.

(** X20. A line that is no command and that is analysed and formatted
    is answered by printing the formatted text, and the loop goes on in
    the world the formatter left: followed by "q" or an interrupt, [run]
    returns having written the opening, the prompt, the text, a prompt
    and the closing message. *)
Theorem run_text_then_quit command analyzed_texts formatted_texts w quit rest
    (st : console World) :
  is_text command →
  morphological_analyzer_analyze command = Ok analyzed_texts →
  texts_formatter_format analyzed_texts (world st) = (Ok formatted_texts, w) →
  quit = Line (ustr "q") ∨ quit = Interrupt →
  run (Line command :: quit :: rest) st
  = (Returned, rest,
     {| running := false;
        written := written st ++ opening_events
                   ++ [Prompt (ustr "> "); Print formatted_texts;
                       Prompt (ustr "> "); closing_event];
        world := w |}).
Proof. apply run_answers_text. Qed.

(** What holds at the end of the loop, begun with [written0] written
    and [unread0] to read. *)
Local Abbreviation loop_post := (λ (written0 : list output_event)
    (unread0 : list input_event) (r : loop_end World),
  match r with
  | Left unread' st' =>
      running st' = true
      ∧ written0 `prefix_of` written st'
      ∧ ∃ before quit,
          unread0 = before ++ quit :: unread'
          ∧ (quit = Line (ustr "q") ∨ quit = Interrupt)
          ∧ Forall (λ e, e ≠ Line (ustr "q") ∧ e ≠ Interrupt) before
  | Raised o unread' st' =>
      o ≠ Returned
      ∧ running st' = true
      ∧ written0 `prefix_of` written st'
      ∧ unread' `suffix_of` unread0
  end).

Lemma loop_post_cons written0 written1 e unread (r : loop_end World) :
  written0 `prefix_of` written1 →
  e ≠ Line (ustr "q") → e ≠ Interrupt →
  loop_post written1 unread r → loop_post written0 (e :: unread) r.
Proof.
  intros Hpre Hq Hi. destruct r as [unread' st'|o unread' st'].
  - intros (Hrun & Hpre' & before & quit & -> & Hquit & Hbefore).
    split; [done|]. split; [by etrans|].
    exists (e :: before), quit. split; [done|]. split; [done|]. by constructor.
  - intros (Hne & Hrun & Hpre' & Hsuf).
    split; [done|]. split; [done|]. split; [by etrans|]. by apply suffix_cons_r.
Qed.

Lemma while_running_invariant unread (st : console World) :
  running st = true →
  loop_post (written st) unread (while_running unread st).
Proof.
  revert st. induction unread as [|e unread IH]; intros st Hrun.
  - rewrite while_running_step by done. cbn.
    split; [done|]. split; [done|]. split; [by apply prefix_app_r|].
    by apply suffix_nil.
  - rewrite while_running_step by done. cbv zeta. destruct e as [command|].
    + destruct (decide (command = ustr "q")) as [->|Hq].
      { cbn. split; [done|]. split; [by apply prefix_app_r|].
        exists [], (Line (ustr "q")). split; [done|]. split; [by left|constructor]. }
      assert (Line command ≠ Line (ustr "q")) as Hline by congruence.
      destruct (decide (command = ustr "c")).
      { eapply loop_post_cons; [|done|done|apply IH].
        - unfold clear. destruct os_name_is_nt; cbn; rewrite <- (assoc_L (++));
            by apply prefix_app_r.
        - unfold clear. by destruct os_name_is_nt. }
      destruct (decide (command = ustr "help")).
      { eapply loop_post_cons; [|done|done|apply IH; done].
        cbn. rewrite <- !(assoc_L (++)). by apply prefix_app_r. }
      destruct (morphological_analyzer_analyze command) as [analyzed_texts|e].
      * cbn [emit world].
        destruct (texts_formatter_format analyzed_texts (world st))
          as [[formatted_texts|e] w].
        -- eapply loop_post_cons; [|done|done|apply IH; done].
           cbn. rewrite <- (assoc_L (++)). by apply prefix_app_r.
        -- cbn. split; [done|]. split; [done|]. split; [by apply prefix_app_r|].
           by apply suffix_cons_r.
      * cbn. split; [done|]. split; [done|]. split; [by apply prefix_app_r|].
        by apply suffix_cons_r.
    + cbn. split; [done|]. split; [by apply prefix_app_r|].
      exists [], Interrupt. split; [done|]. split; [by right|constructor].
Qed.

(** X21. [run] returns only by "q" or an interrupt at the prompt: when it
    returns, the input is some lines none of which is "q" or an interrupt,
    then one that is, then exactly the input left unread. *)
Theorem run_returns_after_quit stdin unread (st st' : console World) :
  run stdin st = (Returned, unread, st') →
  ∃ before quit,
    stdin = before ++ quit :: unread
    ∧ (quit = Line (ustr "q") ∨ quit = Interrupt)
    ∧ Forall (λ e, e ≠ Line (ustr "q") ∧ e ≠ Interrupt) before.
Proof.
  rewrite run_unfold.
  pose proof (while_running_invariant stdin
                {| running := true; written := written st ++ opening_events;
                   world := world st |} eq_refl) as Hinv.
  destruct (while_running stdin _) as [unread' st1|o unread' st1].
  - intros [= <- <-]. by destruct Hinv as (_ & _ & ?).
  - intros [= -> <- <-]. by destruct Hinv as (? & _).
Qed.

(** X22. However [run] ends, the flag is cleared exactly when it
    returned, what had been written before is still there in front of
    what it wrote, and the unread input is an end of the input. *)
Theorem run_flag_and_log stdin o unread (st st' : console World) :
  run stdin st = (o, unread, st') →
  (o = Returned ↔ running st' = false)
  ∧ written st `prefix_of` written st'
  ∧ unread `suffix_of` stdin.
Proof.
  rewrite run_unfold.
  pose proof (while_running_invariant stdin
                {| running := true; written := written st ++ opening_events;
                   world := world st |} eq_refl) as Hinv.
  destruct (while_running stdin _) as [unread' st1|o' unread' st1].
  - intros [= <- <- <-]. destruct Hinv as (_ & Hpre & before & quit & -> & _).
    split; [done|]. split.
    + cbn in Hpre. cbn.
      trans (written st ++ opening_events); [by apply prefix_app_r|].
      trans (written st1); [done|by apply prefix_app_r].
    + by apply suffix_app_r, suffix_cons_r.
  - intros [= <- <- <-]. destruct Hinv as (Hne & Hrun & Hpre & Hsuf).
    split; [|split; [|done]].
    + split; [done|]. intros Hoff. congruence.
    + cbn in Hpre. trans (written st ++ opening_events); [by apply prefix_app_r|done].
Qed.

End FurtherInteractive.

(** * Analyzer, formatter and loop together *)

Section FurtherSession.

Variable normalize_NFKC : list N → list N.
Variable east_asian_width : N → eaw.
Variable COLORS : list (list N * N).
Variable colored : list N → list N → list N.
Variable set_iter : list (list N) → list (list N).
Variable World : Type.
Variable os_get_terminal_size : io World nat.
Variable google_translator : Type.
Variable googletrans_Translator : io World google_translator.
Variable googletrans_translate :
  google_translator → list N → list N → io World (list N).
Variable sent_tokenize : list N → result (list (list N)).
Variable word_tokenize : list N → result (list (list N)).
Variable pos_tag : list (list N) → result (list (list N * list N)).
Variable os_name_is_nt : bool.

Local Abbreviation analyze := (analyze sent_tokenize word_tokenize pos_tag).
Local Abbreviation format :=
  (format normalize_NFKC east_asian_width COLORS colored set_iter World
     os_get_terminal_size google_translator googletrans_Translator
     googletrans_translate).

(** X23. As the first line, followed by "q" or an interrupt, a line in
    which the splitter finds no sentence, an empty line for one, is
    answered by printing the empty string: with any analyzer
    mode and any formatter, the tagger, the terminal width and the
    translation are not asked, and the world is as it was. *)
Theorem run_line_without_sentence analyzer formatter command quit rest
    (st : console World) :
  command ≠ ustr "q" ∧ command ≠ ustr "c" ∧ command ≠ ustr "help" →
  sent_tokenize command = Ok [] →
  quit = Line (ustr "q") ∨ quit = Interrupt →
  run World (analyze analyzer) (format formatter) os_name_is_nt
    (Line command :: quit :: rest) st
  = (Returned, rest,
     {| running := false;
        written := written st ++ opening_events os_name_is_nt
                   ++ [Prompt (ustr "> "); Print [];
                       Prompt (ustr "> "); closing_event];
        world := world st |}).
Proof.
  intros Htext Hnone Hquit.
  apply (run_answers_text World (analyze analyzer) (format formatter) os_name_is_nt
           command [] [] (world st)); [done| |done|done].
  unfold analyze. by rewrite Hnone.
Qed.

End FurtherSession.

(** * Closed instances of the further properties *)

(** X2 with the dark colours in another order, one of them twice, and a
    name that is no colour. *)
Lemma generate_color_tag_exclusion_set_witness :
  Demo.generate_color_tag Demo.the_fox.*2 Demo.dark_colors
  = Demo.generate_color_tag Demo.the_fox.*2
      [ustr "grey"; ustr "pink"; ustr "dark_grey"; ustr "black"; ustr "grey"].
Proof.
  apply (generate_color_tag_exclusion_set Termcolor.COLORS).
  apply Forall_forall. by_compute.
Defined.

(** X3 at a list that names "NN" twice: it gets the third colour. *)
Lemma generate_color_tag_any_tags_witness :
  Demo.generate_color_tag [ustr "NN"; ustr "DT"; ustr "NN"] Demo.dark_colors
    !! ustr "NN"
  = Some (ustr "yellow").
Proof.
  refine (proj1 (proj2 (generate_color_tag_any_tags Termcolor.COLORS
    [ustr "NN"; ustr "DT"; ustr "NN"] Demo.dark_colors)) 2 (ustr "NN") eq_refl _ _).
  - vm_compute. lia.
  - intros j Hj _. destruct j as [|[|[|j]]]; [lia..|]. discriminate.
Defined.

(** X4 at "The fox", inline. *)
Lemma uncoloured_underline_length_witness :
  ∃ tokens under_line part_of_speech_line,
    Demo.format_token_tag_pairs (Demo.config false false) Demo.the_fox
    = Ok [tokens; under_line; part_of_speech_line]
    ∧ length tokens = length under_line.
Proof.
  destruct (uncoloured_underline_length UCD.normalize_NFKC UCD.east_asian_width
    Termcolor.COLORS Termcolor.colored Env.set_iter Env_set_iter_NoDup
    Env_set_iter_elem (Demo.config false false) Demo.the_fox eq_refl)
    as (tokens & under_line & tags & Hout & Hlen & _).
  by exists tokens, under_line, tags.
Defined.

(** X5 at "The" followed by "fox", inline. *)
Lemma uncoloured_concatenation_witness :
  ∃ tags,
    Demo.format_token_tag_pairs (Demo.config false false)
      ([(ustr "The", ustr "DT")] ++ [(ustr "fox", Demo.meishi)])
    = Ok [ ustr " The" ++ ustr " fox ";
           ([space] ++ replicate 3 underline_glyph)
           ++ ([space] ++ replicate 4 underline_glyph);
           tags ]
    ∧ tags = ustr " DT " ++ ([space] ++ Demo.meishi).
Proof.
  destruct (uncoloured_concatenation UCD.normalize_NFKC UCD.east_asian_width
    Termcolor.COLORS Termcolor.colored Env.set_iter Env_set_iter_NoDup
    Env_set_iter_elem (Demo.config false false)
    [(ustr "The", ustr "DT")] [(ustr "fox", Demo.meishi)]
    (ustr " The") ([space] ++ replicate 3 underline_glyph) (ustr " DT ")
    (ustr " fox ") ([space] ++ replicate 4 underline_glyph) ([space] ++ Demo.meishi)
    eq_refl eq_refl eq_refl) as (tags & Hout & Htags).
  exists tags. split; [exact Hout|exact (Htags eq_refl)].
Defined.

(** X6 at "The fox", inline and coloured. *)
Lemma coloured_columns_witness :
  length (Env.set_iter Demo.the_fox.*2)
  ≤ length (available_colors Termcolor.COLORS [])
  ∧ ∃ colour : list N → list N,
      (∀ p q, p ∈ Demo.the_fox → q ∈ Demo.the_fox →
         colour p.2 = colour q.2 ↔ p.2 = q.2)
      ∧ ∀ p, p ∈ Demo.the_fox → colour p.2 ∈ Termcolor.COLORS.*1.
Proof.
  assert (length (Env.set_iter Demo.the_fox.*2)
          ≤ length (available_colors Termcolor.COLORS [])) as Hfit
    by (vm_compute; lia).
  split; [exact Hfit|].
  destruct (coloured_columns UCD.normalize_NFKC UCD.east_asian_width
    Termcolor.COLORS Termcolor.colored Env.set_iter Termcolor_COLORS_keys_NoDup
    Env_set_iter_NoDup Env_set_iter_elem (Demo.config false true) Demo.the_fox
    eq_refl Hfit) as (colour & _ & Hsame & Hpalette).
  exists colour. split; [exact Hsame|]. intros p Hp. exact (proj1 (Hpalette p Hp)).
Defined.

(** X7 at "The fox" with one colour: "The" is served, "fox" is not. *)
Lemma first_tag_without_colour_witness :
  Demo.format_token_tag_pairs Session.one_colour Demo.the_fox
  = Raise (KeyError Demo.meishi).
Proof.
  refine (first_tag_without_colour UCD.normalize_NFKC UCD.east_asian_width
    Termcolor.COLORS Termcolor.colored Env.set_iter Session.one_colour
    [(ustr "The", ustr "DT")] (ustr "fox") Demo.meishi [] eq_refl _ _).
  - by_compute.
  - vm_compute. reflexivity.
Defined.

(** X8 at "The fox" on a terminal of 40 columns, without translation. *)
Lemma format_one_sentence_witness :
  Demo.format (Demo.config false false) [Session.the_fox_sentence] tt
  = (Ok (join [newline] (Session.the_fox_lines ++ [] ++ [Session.rule_line 40])), tt).
Proof.
  exact (format_one_sentence UCD.normalize_NFKC UCD.east_asian_width
    Termcolor.COLORS Termcolor.colored Env.set_iter Env.World
    Env.os_get_terminal_size (Demo.translate (Demo.config false false))
    (Demo.config false false) Session.the_fox_sentence Session.the_fox_lines []
    40 tt tt tt eq_refl eq_refl eq_refl).
Defined.

(** X9 at "The" followed by "The fox". *)
Lemma format_sentences_cons_witness :
  Demo.format (Demo.config false false)
    [Session.the_sentence; Session.the_fox_sentence] tt
  = (Ok (join [newline] [ustr " The"; [space] ++ replicate 3 underline_glyph;
                         ustr " DT "; Session.rule_line 40]
         ++ [newline]
         ++ join [newline] (Session.the_fox_lines ++ [Session.rule_line 40])), tt).
Proof.
  refine (format_sentences_cons UCD.normalize_NFKC UCD.east_asian_width
    Termcolor.COLORS Termcolor.colored Env.set_iter Env.World
    Env.os_get_terminal_size (Demo.translate (Demo.config false false))
    (Demo.config false false) Session.the_sentence [Session.the_fox_sentence]
    _ _ tt tt tt _ eq_refl eq_refl).
  discriminate.
Defined.

(** X10: "The fox" with one colour; a translation service out of reach;
    no terminal, without translation and behind a translation that
    succeeded; and "The" before "The fox" with one colour. *)
Lemma format_first_failure_witness :
  Demo.format Session.one_colour [Session.the_fox_sentence; Session.the_sentence] tt
  = (Raise (KeyError Demo.meishi), tt)
  ∧ Demo.format (Session.translating (Some (ustr "ja"))) [Session.the_fox_sentence] tt
    = (Raise (ExternalError "connection failed"), tt)
  ∧ format_with UCD.normalize_NFKC UCD.east_asian_width Termcolor.COLORS
      Termcolor.colored Env.set_iter Env.World Session.no_terminal
      (Demo.translate (Demo.config false false)) (Demo.config false false)
      [Session.the_fox_sentence] tt
    = (Raise (OSError "Inappropriate ioctl for device"), tt)
  ∧ format_with UCD.normalize_NFKC UCD.east_asian_width Termcolor.COLORS
      Termcolor.colored Env.set_iter Env.World Session.no_terminal
      (Demo.translate (Session.translating None)) (Session.translating None)
      [Session.the_fox_sentence] tt
    = (Raise (OSError "Inappropriate ioctl for device"), tt)
  ∧ Demo.format Session.one_colour [Session.the_sentence; Session.the_fox_sentence] tt
    = (Raise (KeyError Demo.meishi), tt).
Proof.
  split; [|split; [|split; [|split]]].
  - exact (proj1 (format_first_failure UCD.normalize_NFKC UCD.east_asian_width
      Termcolor.COLORS Termcolor.colored Env.set_iter Env.World
      Env.os_get_terminal_size (Demo.translate Session.one_colour)
      Session.one_colour Session.the_fox_sentence [Session.the_sentence]
      (KeyError Demo.meishi) tt tt) eq_refl).
  - exact (proj1 (proj2 (format_first_failure UCD.normalize_NFKC
      UCD.east_asian_width Termcolor.COLORS Termcolor.colored Env.set_iter Env.World
      Env.os_get_terminal_size
      (Demo.translate (Session.translating (Some (ustr "ja"))))
      (Session.translating (Some (ustr "ja"))) Session.the_fox_sentence []
      (ExternalError "connection failed") tt tt))
      Session.the_fox_lines eq_refl eq_refl eq_refl).
  - exact (proj1 (proj2 (proj2 (format_first_failure UCD.normalize_NFKC
      UCD.east_asian_width Termcolor.COLORS Termcolor.colored Env.set_iter Env.World
      Session.no_terminal (Demo.translate (Demo.config false false))
      (Demo.config false false) Session.the_fox_sentence []
      (OSError "Inappropriate ioctl for device") tt tt)))
      Session.the_fox_lines [] tt eq_refl eq_refl eq_refl).
  - exact (proj1 (proj2 (proj2 (format_first_failure UCD.normalize_NFKC
      UCD.east_asian_width Termcolor.COLORS Termcolor.colored Env.set_iter Env.World
      Session.no_terminal (Demo.translate (Session.translating None))
      (Session.translating None) Session.the_fox_sentence []
      (OSError "Inappropriate ioctl for device") tt tt)))
      Session.the_fox_lines (ustr "The fox") tt eq_refl eq_refl eq_refl).
  - exact (proj2 (proj2 (proj2 (format_first_failure UCD.normalize_NFKC
      UCD.east_asian_width Termcolor.COLORS Termcolor.colored Env.set_iter Env.World
      Env.os_get_terminal_size (Demo.translate Session.one_colour)
      Session.one_colour Session.the_sentence [Session.the_fox_sentence]
      (KeyError Demo.meishi) tt tt)))
      _ tt eq_refl eq_refl).
Defined.

(** X11 at "The fox": the DeepL object with an empty key formats as the
    base object does. *)
Lemma format_without_translation_witness :
  Demo.format (Demo.config false false) [Session.the_fox_sentence] tt
  = Demo.format_DeepL {| base := Demo.config false false; api_key := [] |}
      [Session.the_fox_sentence] tt.
Proof.
  exact (format_without_translation UCD.normalize_NFKC UCD.east_asian_width
    Termcolor.COLORS Termcolor.colored Env.set_iter Env.World
    Env.os_get_terminal_size Env.google_translator Env.googletrans_Translator
    Env.googletrans_translate Env.deepl_translator Env.deepl_Translator
    Env.deepl_translate_text Env.langdetect_detect (Demo.config false false) []
    [Session.the_fox_sentence] tt eq_refl).
Defined.

(** X12 at "The fox": the sentence comes back as its own translation. *)
Lemma format_untranslated_line_witness :
  Demo.format (Session.translating None) [Session.the_fox_sentence] tt
  = (Ok (join [newline]
           (Session.the_fox_lines ++ [newline :: ustr "The fox"]
            ++ [Session.rule_line 40])), tt).
Proof.
  exact (format_untranslated_line UCD.normalize_NFKC UCD.east_asian_width
    Termcolor.COLORS Termcolor.colored Env.set_iter Env.World
    Env.os_get_terminal_size Env.google_translator Env.googletrans_Translator
    Env.googletrans_translate (Session.translating None) Session.the_fox_sentence
    Session.the_fox_lines tt 40 tt tt tt eq_refl eq_refl eq_refl eq_refl eq_refl).
Defined.

(** X13 at the tag ":" that the tagger gives to a colon. *)
Lemma tag_table_lookup_witness :
  (ustr ":" ∉ tag_table.*1)
  ∧ expression 1 (ustr ":", ustr ":") = Raise (KeyError (ustr ":")).
Proof.
  assert (ustr ":" ∉ tag_table.*1) as Hnot by by_compute.
  split; [exact Hnot|].
  exact (proj2 (tag_table_lookup (ustr ":")) 1 (ustr ":") Hnot).
Defined.

(** X14 at "The fox". *)
Lemma analyze_abbreviation_witness :
  Session.analyze (MorphologicalAnalyzer_init None) (ustr "The fox")
  = Ok [ {| text := ustr "The fox";
            token_tag_pairs := [(ustr "The", ustr "DT"); (ustr "fox", ustr "NN")] |} ].
Proof.
  refine (analyze_abbreviation Nltk.sent_tokenize Nltk.word_tokenize Nltk.pos_tag
    (MorphologicalAnalyzer_init None) (ustr "The fox") [ustr "The fox"]
    [[(ustr "The", ustr "DT"); (ustr "fox", ustr "NN")]] eq_refl eq_refl _).
  constructor; [|constructor]. exists [ustr "The"; ustr "fox"]. split; reflexivity.
Defined.

(** X15 at "The fox" in Japanese mode. *)
Lemma analyze_relabels_witness :
  Forall (Forall (λ p, p.2 ∈ tag_table.*1))
    [[(ustr "The", ustr "DT"); (ustr "fox", ustr "NN")]]
  ∧ ∃ results,
      Session.analyze (MorphologicalAnalyzer_init (Some japanese)) (ustr "The fox")
      = Ok results
      ∧ text <$> results = [ustr "The fox"].
Proof.
  assert (Forall (Forall (λ p, p.2 ∈ tag_table.*1))
            [[(ustr "The", ustr "DT"); (ustr "fox", ustr "NN")]]) as Hknown
    by by_compute.
  split; [exact Hknown|].
  destruct (analyze_relabels Nltk.sent_tokenize Nltk.word_tokenize Nltk.pos_tag
    (MorphologicalAnalyzer_init (Some japanese)) (ustr "The fox") [ustr "The fox"]
    [[(ustr "The", ustr "DT"); (ustr "fox", ustr "NN")]])
    as (results & Hout & Htexts & _).
  - discriminate.
  - reflexivity.
  - constructor; [|constructor]. exists [ustr "The"; ustr "fox"]. split; reflexivity.
  - exact Hknown.
  - exists results. split; [exact Hout|exact Htexts].
Defined.

(** X16 at "fox : The" in expansion mode: the colon has the tag ":". *)
Lemma analyze_unknown_tag_witness :
  Session.analyze (MorphologicalAnalyzer_init (Some expansion)) (ustr "fox : The")
  = Raise (KeyError (ustr ":")).
Proof.
  refine (analyze_unknown_tag Nltk.sent_tokenize Nltk.word_tokenize Nltk.pos_tag
    (MorphologicalAnalyzer_init (Some expansion)) (ustr "fox : The") [] []
    (ustr "fox : The") [] [ustr "fox"; ustr ":"; ustr "The"]
    [(ustr "fox", ustr "NN")] (ustr ":") (ustr ":") [(ustr "The", ustr "DT")]
    _ eq_refl _ _ eq_refl eq_refl _ _).
  - discriminate.
  - constructor.
  - constructor.
  - by_compute.
  - by_compute.
Defined.

(** X17: "help", "c", then "q"; a line behind it stays unread. *)
Lemma run_commands_then_quit_witness :
  ∃ st',
    Session.run (MorphologicalAnalyzer_init None) (Demo.config false false)
      ([Line (ustr "help"); Line (ustr "c")] ++ Line (ustr "q") :: [Line (ustr "fox")])
      Session.fresh
    = (Returned, [Line (ustr "fox")], st')
    ∧ running st' = false ∧ world st' = tt.
Proof.
  eexists. split.
  - apply (run_commands_then_quit Env.World
      (Session.analyze (MorphologicalAnalyzer_init None))
      (Demo.format (Demo.config false false)) false
      [Line (ustr "help"); Line (ustr "c")] (Line (ustr "q")) [Line (ustr "fox")]
      Session.fresh).
    + constructor; [by right|]. constructor; [by left|constructor].
    + by left.
  - split; reflexivity.
Defined.

(** X18: "help", and the input ends. *)
Lemma run_end_of_input_witness :
  ∃ st',
    Session.run (MorphologicalAnalyzer_init None) (Demo.config false false)
      [Line (ustr "help")] Session.fresh
    = (UncaughtEOF, [], st')
    ∧ running st' = true.
Proof.
  eexists. split.
  - apply (run_end_of_input Env.World
      (Session.analyze (MorphologicalAnalyzer_init None))
      (Demo.format (Demo.config false false)) false [Line (ustr "help")]
      Session.fresh).
    constructor; [by right|constructor].
  - reflexivity.
Defined.

(** X19: a colon in expansion mode stops the analyzer, and "The fox"
    stops a formatter that has one colour. *)
Lemma run_uncaught_witness :
  (∃ st',
     Session.run (MorphologicalAnalyzer_init (Some expansion)) (Demo.config false false)
       ([] ++ Line (ustr "fox : The") :: [Line (ustr "q")]) Session.fresh
     = (Uncaught (KeyError (ustr ":")), [Line (ustr "q")], st')
     ∧ running st' = true)
  ∧ ∃ st',
      Session.run (MorphologicalAnalyzer_init None) Session.one_colour
        ([] ++ Line (ustr "The fox") :: [Line (ustr "q")]) Session.fresh
      = (Uncaught (KeyError (ustr "NN")), [Line (ustr "q")], st')
      ∧ running st' = true.
Proof.
  assert (ustr "fox : The" ≠ ustr "q" ∧ ustr "fox : The" ≠ ustr "c"
          ∧ ustr "fox : The" ≠ ustr "help") as Hcolon by (repeat split; differ).
  assert (ustr "The fox" ≠ ustr "q" ∧ ustr "The fox" ≠ ustr "c"
          ∧ ustr "The fox" ≠ ustr "help") as Hfox by (repeat split; differ).
  split.
  - eexists. split; [apply (proj1 (run_uncaught Env.World
      (Session.analyze (MorphologicalAnalyzer_init (Some expansion)))
      (Demo.format (Demo.config false false)) false [] (ustr "fox : The")
      [Line (ustr "q")] (KeyError (ustr ":")) Session.fresh
      (Forall_nil_2 _) Hcolon)); reflexivity|reflexivity].
  - eexists. split; [apply (proj2 (run_uncaught Env.World
      (Session.analyze (MorphologicalAnalyzer_init None))
      (Demo.format Session.one_colour) false [] (ustr "The fox")
      [Line (ustr "q")] (KeyError (ustr "NN")) Session.fresh
      (Forall_nil_2 _) Hfox)
      [ {| text := ustr "The fox";
           token_tag_pairs := [(ustr "The", ustr "DT"); (ustr "fox", ustr "NN")] |} ]
      tt); reflexivity|reflexivity].
Defined.

(** X20: "The", then "q". *)
Lemma run_text_then_quit_witness :
  ∃ st',
    Session.run (MorphologicalAnalyzer_init None) (Demo.config false false)
      [Line (ustr "The"); Line (ustr "q")] Session.fresh
    = (Returned, [], st')
    ∧ written st'
      = opening_events false
        ++ [ Prompt (ustr "> ");
             Print (join [newline]
                      [ustr " The"; [space] ++ replicate 3 underline_glyph;
                       ustr " DT "; Session.rule_line 40]);
             Prompt (ustr "> "); closing_event ].
Proof.
  assert (ustr "The" ≠ ustr "q" ∧ ustr "The" ≠ ustr "c" ∧ ustr "The" ≠ ustr "help")
    as Htext by (repeat split; differ).
  eexists. split.
  - apply (run_text_then_quit Env.World
      (Session.analyze (MorphologicalAnalyzer_init None))
      (Demo.format (Demo.config false false)) false (ustr "The")
      [ {| text := ustr "The"; token_tag_pairs := [(ustr "The", ustr "DT")] |} ]
      (join [newline]
         [ustr " The"; [space] ++ replicate 3 underline_glyph;
          ustr " DT "; Session.rule_line 40])
      tt (Line (ustr "q")) [] Session.fresh
      Htext eq_refl eq_refl (or_introl eq_refl)).
  - reflexivity.
Defined.

(** X21 at "help", "q" and a line behind them. *)
Lemma run_returns_after_quit_witness :
  ∃ before quit,
    [Line (ustr "help"); Line (ustr "q"); Line (ustr "fox")]
    = before ++ quit :: [Line (ustr "fox")]
    ∧ (quit = Line (ustr "q") ∨ quit = Interrupt).
Proof.
  destruct (run_returns_after_quit Env.World
    (Session.analyze (MorphologicalAnalyzer_init None))
    (Demo.format (Demo.config false false)) false
    [Line (ustr "help"); Line (ustr "q"); Line (ustr "fox")] [Line (ustr "fox")]
    Session.fresh
    (Session.run (MorphologicalAnalyzer_init None) (Demo.config false false)
       [Line (ustr "help"); Line (ustr "q"); Line (ustr "fox")] Session.fresh).2
    eq_refl) as (before & quit & Hsplit & Hquit & _).
  exists before, quit. split; [exact Hsplit|exact Hquit].
Defined.

(** X22 at the same input. *)
Lemma run_flag_and_log_witness :
  written Session.fresh
  `prefix_of` written
    (Session.run (MorphologicalAnalyzer_init None) (Demo.config false false)
       [Line (ustr "help"); Line (ustr "q"); Line (ustr "fox")] Session.fresh).2.
Proof.
  exact (proj1 (proj2 (run_flag_and_log Env.World
    (Session.analyze (MorphologicalAnalyzer_init None))
    (Demo.format (Demo.config false false)) false
    [Line (ustr "help"); Line (ustr "q"); Line (ustr "fox")] Returned
    [Line (ustr "fox")] Session.fresh
    (Session.run (MorphologicalAnalyzer_init None) (Demo.config false false)
       [Line (ustr "help"); Line (ustr "q"); Line (ustr "fox")] Session.fresh).2
    eq_refl))).
Defined.

(** X23 at the empty line, in Japanese mode with colour. *)
Lemma run_line_without_sentence_witness :
  ∃ st',
    Session.run (MorphologicalAnalyzer_init (Some japanese)) (Demo.config false true)
      [Line []; Line (ustr "q")] Session.fresh
    = (Returned, [], st')
    ∧ written st'
      = opening_events false
        ++ [Prompt (ustr "> "); Print []; Prompt (ustr "> "); closing_event].
Proof.
  assert (([] : list N) ≠ ustr "q" ∧ ([] : list N) ≠ ustr "c"
          ∧ ([] : list N) ≠ ustr "help") as Htext by (repeat split; differ).
  eexists. split.
  - apply (run_line_without_sentence UCD.normalize_NFKC UCD.east_asian_width
      Termcolor.COLORS Termcolor.colored Env.set_iter Env.World
      Env.os_get_terminal_size Env.google_translator Env.googletrans_Translator
      Env.googletrans_translate Nltk.sent_tokenize Nltk.word_tokenize Nltk.pos_tag
      false (MorphologicalAnalyzer_init (Some japanese)) (Demo.config false true)
      [] (Line (ustr "q")) [] Session.fresh
      Htext eq_refl (or_introl eq_refl)).
  - reflexivity.
Defined.
